(** * Personal notes web app: the note collection state manager

    A shallow embedding of the script part of [NotesApp.svelte], which the
    repository carries in two variants:

    - the adapter-backed component (persistence through [$lib/supabaseClient]),
      embedded in [Module Supabase];
    - the local-storage component (persistence through [localStorage]),
      embedded in [Module LocalStorage].

    Component state (the top-level [let] bindings of the script) is a record
    that every operation takes and returns.  What the environment decides
    (the answer to [confirm], the settlement of an adapter promise, the
    reading of the clock, the value found in [localStorage]) is an explicit
    argument of the operation; the calls an operation makes to its persistence
    backend are returned next to the new state, in call order. *)

From Stdlib Require Import String Ascii List ZArith Bool Lia PeanoNat.
From Stdlib Require Import DecimalString DecimalZ.
Import ListNotations.

Local Open Scope string_scope.
Local Open Scope list_scope.

Set Implicit Arguments.

(** ** JavaScript built-ins used by the component *)

Module JS.

(** Truthiness of a string: only the empty string is falsy. *)
Definition truthy (s : string) : bool :=
  match s with
  | EmptyString => false
  | String _ _ => true
  end.

(** Truthiness of a [string | null]. *)
Definition truthy_opt (o : option string) : bool :=
  match o with
  | None => false
  | Some s => truthy s
  end.

(** [a || b] on strings. *)
Definition or_else (a b : string) : string :=
  if truthy a then a else b.

(** [selectedNoteId === id] for [selectedNoteId : string | null]. *)
Definition strict_eq_opt (o : option string) (s : string) : bool :=
  match o with
  | None => false
  | Some x => (x =? s)%string
  end.

(** [String.prototype.toLowerCase] as it is on ASCII text: the characters
    ['A'..'Z'] are mapped to ['a'..'z'], every other character is kept.
    The search filter is embedded with the platform's function as a
    parameter ([matchesSearchWith], [filteredNotesWith]); this one is the
    instance at which the pages are run on ASCII text. *)
Definition lower_char (c : ascii) : ascii :=
  let n := nat_of_ascii c in
  if ((65 <=? n) && (n <=? 90))%nat then ascii_of_nat (n + 32) else c.

Fixpoint toLowerCase (s : string) : string :=
  match s with
  | EmptyString => EmptyString
  | String c s' => String (lower_char c) (toLowerCase s')
  end.

(** [s.startsWith(t)]. *)
Fixpoint startsWith (s t : string) {struct t} : bool :=
  match t, s with
  | EmptyString, _ => true
  | String _ _, EmptyString => false
  | String b t', String a s' => Ascii.eqb a b && startsWith s' t'
  end.

(** [s.includes(t)]: [t] occurs in [s] at some position. *)
Fixpoint includes (s t : string) : bool :=
  match s with
  | EmptyString => startsWith s t
  | String _ s' => startsWith s t || includes s' t
  end.

(** [String(n)] for an integral number such as [Date.now()]: its decimal
    numeral, with a leading minus sign when negative. *)
Definition String_of_number (n : Z) : string :=
  NilEmpty.string_of_int (Z.to_int n).

(** [a.length ? a[0].id : null] is written with a [match] on the list. *)

End JS.

(** ** The note record *)

Module Common.

Section NoteRecord.

(** [T] is the representation of the two timestamps: ISO strings in the
    adapter-backed variant, epoch milliseconds in the local one. *)
Variable T : Type.

Record Note : Type := mkNote {
  id : string;
  title : string;
  content : string;
  created : T;
  updated : T
}.

(** [Partial<Note>]: every field may be absent. *)
Record PartialNote : Type := mkPartial {
  p_id : option string;
  p_title : option string;
  p_content : option string;
  p_created : option T;
  p_updated : option T
}.

Definition pick (A : Type) (old : A) (new : option A) : A :=
  match new with
  | Some v => v
  | None => old
  end.

(** [{ ...n, ...p }] *)
Definition spread (n : Note) (p : PartialNote) : Note :=
  {| id := pick (id n) (p_id p);
     title := pick (title n) (p_title p);
     content := pick (content n) (p_content p);
     created := pick (created n) (p_created p);
     updated := pick (updated n) (p_updated p) |}.

(** A full note seen as the object spread over another one. *)
Definition all_fields (n : Note) : PartialNote :=
  {| p_id := Some (id n);
     p_title := Some (title n);
     p_content := Some (content n);
     p_created := Some (created n);
     p_updated := Some (updated n) |}.

(** The predicate of the search filter:
    [n.title.toLowerCase().includes(searchTerm.toLowerCase()) ||
     n.content.toLowerCase().includes(searchTerm.toLowerCase())],
    with [toLowerCase] standing for [String.prototype.toLowerCase]. *)
Definition matchesSearchWith (toLowerCase : string -> string)
  (searchTerm : string) (n : Note) : bool :=
  JS.includes (toLowerCase (title n)) (toLowerCase searchTerm)
  || JS.includes (toLowerCase (content n)) (toLowerCase searchTerm).

Definition matchesSearch (searchTerm : string) (n : Note) : bool :=
  matchesSearchWith JS.toLowerCase searchTerm n.

(** [notes.find((n) => n.id === selectedNoteId) ?? null] *)
Definition findSelected (notes : list Note) (selectedNoteId : option string)
  : option Note :=
  find (fun n => JS.strict_eq_opt selectedNoteId (id n)) notes.

(** [notes.filter((n) => n.id !== id)] *)
Definition removeId (id0 : string) (notes : list Note) : list Note :=
  filter (fun n => negb (id n =? id0)%string) notes.

(** [notes.length ? notes[0].id : null] *)
Definition firstId (notes : list Note) : option string :=
  match notes with
  | [] => None
  | n0 :: _ => Some (id n0)
  end.

End NoteRecord.

End Common.

(** ** The adapter-backed component *)

Module Supabase.

(** Timestamps are ISO strings ([now.toISOString()]). *)
Definition Note : Type := Common.Note string.
Definition PartialNote : Type := Common.PartialNote string.

(** The argument of the adapter's [createNote]: a note without id. *)
Record NoteData : Type := mkNoteData {
  d_title : string;
  d_content : string;
  d_updated : string;
  d_created : string
}.

(** What a rejected promise carries: an [Error] with its message, or any
    other thrown value. *)
Inductive Thrown : Type :=
| ErrorObject (message : string)
| OtherValue.

(** How the awaited adapter promise settles. *)
Inductive Settled (A : Type) : Type :=
| Resolved (value : A)
| Rejected (e : Thrown).
Arguments Rejected {A} e.

(** The calls made to [$lib/supabaseClient]. *)
Inductive AdapterCall : Type :=
| supabaseFetchNotes
| supabaseCreateNote (noteData : NoteData)
| supabaseUpdateNote (id : string) (updatedData : PartialNote)
| supabaseDeleteNote (id : string).

Record State : Type := mkState {
  notes : list Note;
  selectedNoteId : option string;
  editing : bool;
  searchTerm : string;
  loading : bool;
  error : option string
}.

Definition initial : State :=
  {| notes := []; selectedNoteId := None; editing := false;
     searchTerm := ""; loading := false; error := None |}.

(** [if (e instanceof Error) error = e.message; else error = fallback] *)
Definition caught (e : Thrown) (fallback : string) : option string :=
  match e with
  | ErrorObject message => Some message
  | OtherValue => Some fallback
  end.

(** Each of the four operations below first sets [loading = true] and
    [error = null], awaits the adapter, and ends in [finally] with
    [loading = false]; its result here is the state once the awaited call
    has settled.

    The [catch] and [finally] blocks shared by the four operations: *)
Definition failed (st : State) (e : Thrown) (fallback : string) : State :=
  {| notes := notes st; selectedNoteId := selectedNoteId st;
     editing := editing st; searchTerm := searchTerm st;
     loading := false; error := caught e fallback |}.

(** [{ ...note, created: note.created || note.updated, updated: note.updated }] *)
Definition normalized (note : Note) : Note :=
  {| Common.id := Common.id note;
     Common.title := Common.title note;
     Common.content := Common.content note;
     Common.created := JS.or_else (Common.created note) (Common.updated note);
     Common.updated := Common.updated note |}.

Definition loadNotes (reply : Settled (list Note)) (st : State)
  : State * list AdapterCall :=
  match reply with
  | Resolved data =>
      let notes' := map normalized data in
      let selected' :=
        match notes' with
        | [] => selectedNoteId st
        | n0 :: _ =>
            if negb (JS.truthy_opt (selectedNoteId st))
            then Some (Common.id n0)
            else selectedNoteId st
        end in
      ({| notes := notes'; selectedNoteId := selected';
          editing := editing st; searchTerm := searchTerm st;
          loading := false; error := None |},
       [supabaseFetchNotes])
  | Rejected e =>
      (failed st e "Failed to load notes", [supabaseFetchNotes])
  end.

(** [now] is [new Date().toISOString()]. *)
Definition noteData (now : string) : NoteData :=
  {| d_title := "Untitled Note"; d_content := "";
     d_updated := now; d_created := now |}.

Definition createNote (now : string) (reply : Settled Note) (st : State)
  : State * list AdapterCall :=
  match reply with
  | Resolved note =>
      ({| notes := note :: notes st;
          selectedNoteId := Some (Common.id note);
          editing := true; searchTerm := searchTerm st;
          loading := false; error := None |},
       [supabaseCreateNote (noteData now)])
  | Rejected e =>
      (failed st e "Failed to create note",
       [supabaseCreateNote (noteData now)])
  end.

Definition updateNote (id : string) (updatedData : PartialNote)
  (reply : Settled Note) (st : State) : State * list AdapterCall :=
  match reply with
  | Resolved note =>
      ({| notes :=
            map (fun n =>
                   if (Common.id n =? id)%string
                   then Common.spread n (Common.all_fields note)
                   else n)
                (notes st);
          selectedNoteId := selectedNoteId st;
          editing := editing st; searchTerm := searchTerm st;
          loading := false; error := None |},
       [supabaseUpdateNote id updatedData])
  | Rejected e =>
      (failed st e "Failed to update note",
       [supabaseUpdateNote id updatedData])
  end.

(** [confirmed] is the answer of [confirm('Delete this note?')]. *)
Definition deleteNote (confirmed : bool) (id : string)
  (reply : Settled unit) (st : State) : State * list AdapterCall :=
  if negb confirmed then (st, [])
  else
    match reply with
    | Resolved _ =>
        let wasSelected := JS.strict_eq_opt (selectedNoteId st) id in
        let notes' := Common.removeId id (notes st) in
        ({| notes := notes';
            selectedNoteId :=
              if wasSelected then Common.firstId notes'
              else selectedNoteId st;
            editing := editing st; searchTerm := searchTerm st;
            loading := false; error := None |},
         [supabaseDeleteNote id])
    | Rejected e =>
        (failed st e "Failed to delete note", [supabaseDeleteNote id])
    end.

Definition selectNote (id : string) (st : State) : State :=
  {| notes := notes st; selectedNoteId := Some id; editing := false;
     searchTerm := searchTerm st; loading := loading st;
     error := error st |}.

Definition startEditing (st : State) : State :=
  {| notes := notes st; selectedNoteId := selectedNoteId st;
     editing := true; searchTerm := searchTerm st;
     loading := loading st; error := error st |}.

Definition stopEditing (st : State) : State :=
  {| notes := notes st; selectedNoteId := selectedNoteId st;
     editing := false; searchTerm := searchTerm st;
     loading := loading st; error := error st |}.

(** [bind:value={searchTerm}] on the search input. *)
Definition setSearchTerm (term : string) (st : State) : State :=
  {| notes := notes st; selectedNoteId := selectedNoteId st;
     editing := editing st; searchTerm := term;
     loading := loading st; error := error st |}.

(** [$: filteredNotes = searchTerm ? notes.filter(...) : notes]; the optional
    chaining in [n.title?.toLowerCase()] has no effect on a title that is a
    string. *)
Definition filteredNotesWith (toLowerCase : string -> string) (st : State)
  : list Note :=
  if JS.truthy (searchTerm st)
  then filter (Common.matchesSearchWith toLowerCase (searchTerm st))
         (notes st)
  else notes st.

Definition filteredNotes (st : State) : list Note :=
  filteredNotesWith JS.toLowerCase st.

(** [$: selectedNote = notes.find((n) => n.id === selectedNoteId) ?? null] *)
Definition selectedNote (st : State) : option Note :=
  Common.findSelected (notes st) (selectedNoteId st).

(** A user session: create and delete intents with what the environment
    answered to each. *)
Inductive Intent : Type :=
| Create (now : string) (reply : Settled Note)
| Delete (confirmed : bool) (id : string) (reply : Settled unit).

Definition perform (st : State) (i : Intent) : State :=
  match i with
  | Create now reply => fst (createNote now reply st)
  | Delete confirmed id reply => fst (deleteNote confirmed id reply st)
  end.

Definition session (intents : list Intent) : State :=
  fold_left perform intents initial.

(** The ids the adapter assigned during a session, one per create call that
    resolved. *)
Fixpoint assignedIds (intents : list Intent) : list string :=
  match intents with
  | [] => []
  | Create _ (Resolved note) :: rest => Common.id note :: assignedIds rest
  | _ :: rest => assignedIds rest
  end.

End Supabase.

(** ** The local-storage component *)

Module LocalStorage.

(** Timestamps are epoch milliseconds ([Date.now()]). *)
Definition Note : Type := Common.Note Z.
Definition PartialNote : Type := Common.PartialNote Z.

(** The calls made to [localStorage].  The value kept under the key is the
    JSON text of an array of notes; it is carried here as that array. *)
Inductive StorageCall : Type :=
| getItem (key : string)
| setItem (key : string) (value : list Note).

Record State : Type := mkState {
  notes : list Note;
  selectedNoteId : option string;
  editing : bool;
  searchTerm : string
}.

Definition initial : State :=
  {| notes := []; selectedNoteId := None; editing := false;
     searchTerm := "" |}.

(** [stored] is what [localStorage.getItem('notes')] returned: [None] for
    [null] (or an empty text), else the parsed array.  The call is taken to
    return and the stored text to be the JSON of an array of notes. *)
Definition loadNotes (stored : option (list Note)) (st : State)
  : State * list StorageCall :=
  ({| notes := match stored with
               | Some parsed => parsed
               | None => []
               end;
      selectedNoteId := selectedNoteId st;
      editing := editing st; searchTerm := searchTerm st |},
   [getItem "notes"]).

Definition saveNotes (st : State) : list StorageCall :=
  [setItem "notes" (notes st)].

(** [createNote], [updateNote] and [deleteNote] below call [saveNotes] as
    their last statement, after all their assignments: the state they
    return is the state of the component whether [localStorage.setItem]
    returns or throws.  What a throw changes (the stored value, and the
    rest of the handler that made the call) is in [LocalApp]. *)

(** [now] is the reading of [Date.now()]. *)
Definition createNote (now : Z) (st : State) : State * list StorageCall :=
  let note : Note :=
    {| Common.id := JS.String_of_number now;
       Common.title := "Untitled Note";
       Common.content := "";
       Common.created := now;
       Common.updated := now |} in
  let st' :=
    {| notes := note :: notes st;
       selectedNoteId := Some (Common.id note);
       editing := true; searchTerm := searchTerm st |} in
  (st', saveNotes st').

(** [{ ...n, ...updatedData, updated: Date.now() }] *)
Definition merged (n : Note) (updatedData : PartialNote) (now : Z) : Note :=
  let m := Common.spread n updatedData in
  {| Common.id := Common.id m;
     Common.title := Common.title m;
     Common.content := Common.content m;
     Common.created := Common.created m;
     Common.updated := now |}.

(** [notes.map((n) => n.id === id ? { ...n, ...updatedData, updated:
    Date.now() } : n)]: the clock is read inside the callback, once for each
    note that has the id, in list order.  [clock k] is the reading made for
    the [k]-th such note of the call; [from] counts the readings made so
    far. *)
Fixpoint updateEach (id : string) (updatedData : PartialNote)
  (clock : nat -> Z) (from : nat) (notes : list Note) : list Note :=
  match notes with
  | [] => []
  | n :: rest =>
      if (Common.id n =? id)%string
      then merged n updatedData (clock from)
             :: updateEach id updatedData clock (S from) rest
      else n :: updateEach id updatedData clock from rest
  end.

Definition updateNote (id : string) (updatedData : PartialNote)
  (clock : nat -> Z) (st : State) : State * list StorageCall :=
  let st' :=
    {| notes := updateEach id updatedData clock 0 (notes st);
       selectedNoteId := selectedNoteId st;
       editing := editing st; searchTerm := searchTerm st |} in
  (st', saveNotes st').

(** [confirmed] is the answer of [confirm('Delete this note?')]. *)
Definition deleteNote (confirmed : bool) (id : string) (st : State)
  : State * list StorageCall :=
  if confirmed then
    let wasSelected := JS.strict_eq_opt (selectedNoteId st) id in
    let notes' := Common.removeId id (notes st) in
    let st' :=
      {| notes := notes';
         selectedNoteId :=
           if wasSelected then Common.firstId notes'
           else selectedNoteId st;
         editing := editing st; searchTerm := searchTerm st |} in
    (st', saveNotes st')
  else (st, []).

Definition selectNote (id : string) (st : State) : State :=
  {| notes := notes st; selectedNoteId := Some id; editing := false;
     searchTerm := searchTerm st |}.

Definition startEditing (st : State) : State :=
  {| notes := notes st; selectedNoteId := selectedNoteId st;
     editing := true; searchTerm := searchTerm st |}.

Definition stopEditing (st : State) : State :=
  {| notes := notes st; selectedNoteId := selectedNoteId st;
     editing := false; searchTerm := searchTerm st |}.

(** [bind:value={searchTerm}] on the search input. *)
Definition setSearchTerm (term : string) (st : State) : State :=
  {| notes := notes st; selectedNoteId := selectedNoteId st;
     editing := editing st; searchTerm := term |}.

(** [$: filteredNotes = searchTerm ? notes.filter(...) : notes] *)
Definition filteredNotesWith (toLowerCase : string -> string) (st : State)
  : list Note :=
  if JS.truthy (searchTerm st)
  then filter (Common.matchesSearchWith toLowerCase (searchTerm st))
         (notes st)
  else notes st.

Definition filteredNotes (st : State) : list Note :=
  filteredNotesWith JS.toLowerCase st.

(** [$: selectedNote = notes.find((n) => n.id === selectedNoteId) ?? null] *)
Definition selectedNote (st : State) : option Note :=
  Common.findSelected (notes st) (selectedNoteId st).

(** A user session: create and delete intents with what the environment
    answered to each. *)
Inductive Intent : Type :=
| Create (now : Z)
| Delete (confirmed : bool) (id : string).

Definition perform (st : State) (i : Intent) : State :=
  match i with
  | Create now => fst (createNote now st)
  | Delete confirmed id => fst (deleteNote confirmed id st)
  end.

Definition session (intents : list Intent) : State :=
  fold_left perform intents initial.

(** The clock readings of the create intents of a session. *)
Fixpoint clockReadings (intents : list Intent) : list Z :=
  match intents with
  | [] => []
  | Create now :: rest => now :: clockReadings rest
  | Delete _ _ :: rest => clockReadings rest
  end.

End LocalStorage.

(** ** What the specification says, in its own words *)

Module Spec.





(** "note ids are pairwise distinct" *)
Definition distinctIds (T : Type) (l : list (Common.Note T)) : Prop :=
  NoDup (map (@Common.id T) l).

(** "the id of the first element of the list, or null if it is empty" *)
Definition firstIdOrNull (T : Type) (l : list (Common.Note T))
  : option string :=
  option_map (@Common.id T) (hd_error l).



(** The update [{title: "X"}]. *)
Definition titleOnly (T : Type) (x : string) : Common.PartialNote T :=
  {| Common.p_id := None; Common.p_title := Some x;
     Common.p_content := None; Common.p_created := None;
     Common.p_updated := None |}.
Arguments titleOnly {T} x.

(** Modelled from the spec: the contract of the adapter's create operation,
    whose code ([$lib/supabaseClient]) is not among the sources:
    "create(fields excluding id) -> Note (adapter assigns id)"; the remote
    service assigns ids and timestamps, the confirmed note carries the
    submitted title and content. *)
Definition createConfirms (d : Supabase.NoteData) (confirmed : Supabase.Note)
  : Prop :=
  Common.title confirmed = Supabase.d_title d
  /\ Common.content confirmed = Supabase.d_content d.

(** "load() replaces the in-memory list with the result and, if no note is
    currently selected, selects the first note in the returned list (if
    any)". *)
Definition loadsAndSelectsFirst (T : Type) (selectedBefore : option string)
  (returned notesAfter : list (Common.Note T))
  (selectedAfter : option string) : Prop :=
  notesAfter = returned
  /\ (selectedBefore = None -> returned <> [] ->
      selectedAfter = firstIdOrNull returned).

(** A loaded note is the returned note, except that a missing (empty)
    [created] is taken from [updated]. *)
Definition loadedFrom (returned loaded : Supabase.Note) : Prop :=
  Common.id loaded = Common.id returned
  /\ Common.title loaded = Common.title returned
  /\ Common.content loaded = Common.content returned
  /\ Common.updated loaded = Common.updated returned
  /\ Common.created loaded
     = (if (Common.created returned =? "")%string
        then Common.updated returned
        else Common.created returned).

End Spec.

(** ** Sample data *)

Module Sample.

Definition a1 : Supabase.Note :=
  {| Common.id := "1"; Common.title := "Groceries";
     Common.content := "Milk and EGGS";
     Common.created := "2024-01-01T08:00:00.000Z";
     Common.updated := "2024-01-02T09:30:00.000Z" |}.

Definition a2 : Supabase.Note :=
  {| Common.id := "2"; Common.title := "Ideas";
     Common.content := "a rocket";
     Common.created := "";
     Common.updated := "2024-02-01T10:00:00.000Z" |}.

(** What the adapter confirms for [update("1", {title: "X"})] on [a1]. *)
Definition a1_retitled : Supabase.Note :=
  {| Common.id := "1"; Common.title := "X";
     Common.content := "Milk and EGGS";
     Common.created := "2024-01-01T08:00:00.000Z";
     Common.updated := "2024-03-01T12:00:00.000Z" |}.

(** What the adapter confirms for a create. *)
Definition a3 : Supabase.Note :=
  {| Common.id := "3"; Common.title := "Untitled Note";
     Common.content := "";
     Common.created := "2024-03-05T07:00:00.000Z";
     Common.updated := "2024-03-05T07:00:00.000Z" |}.

Definition sa : Supabase.State :=
  {| Supabase.notes := [a1; a2]; Supabase.selectedNoteId := Some "1";
     Supabase.editing := false; Supabase.searchTerm := "";
     Supabase.loading := false; Supabase.error := None |}.

Definition l1 : LocalStorage.Note :=
  {| Common.id := "1"; Common.title := "Groceries";
     Common.content := "Milk and EGGS";
     Common.created := 1704096000000%Z;
     Common.updated := 1704187800000%Z |}.

Definition l2 : LocalStorage.Note :=
  {| Common.id := "2"; Common.title := "Ideas";
     Common.content := "a rocket";
     Common.created := 1706781600000%Z;
     Common.updated := 1706781600000%Z |}.

Definition sl : LocalStorage.State :=
  {| LocalStorage.notes := [l1; l2];
     LocalStorage.selectedNoteId := Some "1";
     LocalStorage.editing := false; LocalStorage.searchTerm := "" |}.

End Sample.

(** ** The child components and the template *)

Module JSString.

(** The characters that [String.prototype.trim] removes are the WhiteSpace
    and LineTerminator code points of ECMAScript.  A string carries text as
    its UTF-8 bytes, so each of them is a sequence of one, two or three
    bytes:

    - U+0009 TAB, U+000A LF, U+000B VT, U+000C FF, U+000D CR, U+0020 SP;
    - U+00A0 no-break space (C2 A0);
    - U+1680 (E1 9A 80), U+2000 to U+200A (E2 80 80 to E2 80 8A),
      U+2028 and U+2029 (E2 80 A8, E2 80 A9), U+202F (E2 80 AF),
      U+205F (E2 81 9F), U+3000 (E3 80 80), U+FEFF (EF BB BF). *)
Definition whiteSpace1 (c : ascii) : bool :=
  let n := nat_of_ascii c in
  (((9 <=? n) && (n <=? 13)) || (n =? 32))%nat.

Definition whiteSpace2 (c1 c2 : ascii) : bool :=
  ((nat_of_ascii c1 =? 194) && (nat_of_ascii c2 =? 160))%nat.

Definition whiteSpace3 (c1 c2 c3 : ascii) : bool :=
  let n1 := nat_of_ascii c1 in
  let n2 := nat_of_ascii c2 in
  let n3 := nat_of_ascii c3 in
  (((n1 =? 225) && (n2 =? 154) && (n3 =? 128))
   || ((n1 =? 226) && (n2 =? 128)
       && (((128 <=? n3) && (n3 <=? 138))
           || (n3 =? 168) || (n3 =? 169) || (n3 =? 175)))
   || ((n1 =? 226) && (n2 =? 129) && (n3 =? 159))
   || ((n1 =? 227) && (n2 =? 128) && (n3 =? 128))
   || ((n1 =? 239) && (n2 =? 187) && (n3 =? 191)))%nat.

(** The rest of [s] after the white-space character it begins with, if it
    begins with one. *)
Definition dropWhiteSpace (s : string) : option string :=
  match s with
  | EmptyString => None
  | String c1 r1 =>
      if whiteSpace1 c1 then Some r1
      else
        match r1 with
        | EmptyString => None
        | String c2 r2 =>
            if whiteSpace2 c1 c2 then Some r2
            else
              match r2 with
              | EmptyString => None
              | String c3 r3 =>
                  if whiteSpace3 c1 c2 c3 then Some r3 else None
              end
        end
  end.

(** [s.trimStart()]: the white-space characters at the front are dropped one
    after the other. *)
Fixpoint trimStart (s : string) : string :=
  match s with
  | EmptyString => EmptyString
  | String c1 r1 =>
      if whiteSpace1 c1 then trimStart r1
      else
        match r1 with
        | EmptyString => s
        | String c2 r2 =>
            if whiteSpace2 c1 c2 then trimStart r2
            else
              match r2 with
              | EmptyString => s
              | String c3 r3 =>
                  if whiteSpace3 c1 c2 c3 then trimStart r3 else s
              end
        end
  end.

(** [s] consists of white-space characters only. *)
Definition blank (s : string) : bool :=
  match trimStart s with
  | EmptyString => true
  | String _ _ => false
  end.

(** [s.trimEnd()]: [s] up to the point from which only white space
    follows. *)
Fixpoint trimEnd (s : string) : string :=
  match s with
  | EmptyString => EmptyString
  | String c s' => if blank s then EmptyString else String c (trimEnd s')
  end.

(** [s.trim()] *)
Definition trim (s : string) : string := trimEnd (trimStart s).

(** [s] begins, or ends, with a white-space character. *)
Definition beginsWithWhiteSpace (s : string) : Prop :=
  dropWhiteSpace s <> None.

Definition endsWithWhiteSpace (s : string) : Prop :=
  exists front last : string,
    s = (front ++ last)%string /\ dropWhiteSpace last = Some EmptyString.

End JSString.

Module JSCase.

Definition asciiLetter (c : ascii) : bool :=
  let n := nat_of_ascii c in
  (((65 <=? n) && (n <=? 90)) || ((97 <=? n) && (n <=? 122)))%nat.

(** The ASCII characters that are Case_Ignorable in Unicode: the
    apostrophe, the full stop, the colon, the circumflex and the grave
    accent. *)
Definition caseIgnorable (c : ascii) : bool :=
  let n := nat_of_ascii c in
  ((n =? 39) || (n =? 46) || (n =? 58) || (n =? 94) || (n =? 96))%nat.

(** The Greek capital sigma, U+03A3, is the bytes CE A3. *)
Definition isCapitalSigma (c1 c2 : ascii) : bool :=
  ((nat_of_ascii c1 =? 206) && (nat_of_ascii c2 =? 163))%nat.

(** A letter follows, after case-ignorable characters if any. *)
Fixpoint letterAhead (s : string) : bool :=
  match s with
  | EmptyString => false
  | String c1 r1 =>
      if caseIgnorable c1 then letterAhead r1
      else
        asciiLetter c1
        || match r1 with
           | EmptyString => false
           | String c2 _ => isCapitalSigma c1 c2
           end
  end.

(** [String.prototype.toLowerCase] on text made of ASCII characters and the
    Greek capital sigma: an ASCII letter becomes its small letter, and the
    capital sigma becomes the final small sigma (U+03C2) when a letter
    stands before it and none after it, case-ignorable characters not
    counting, and the small sigma (U+03C3) otherwise (the Final_Sigma
    condition of the Unicode special casing, which the platform's function
    follows).  [afterLetter]: a letter stands before [s], with at most
    case-ignorable characters in between. *)
Fixpoint lowerFrom (afterLetter : bool) (s : string) : string :=
  match s with
  | EmptyString => EmptyString
  | String c1 r1 =>
      match r1 with
      | EmptyString => String (JS.lower_char c1) EmptyString
      | String c2 r2 =>
          if isCapitalSigma c1 c2
          then ((if afterLetter && negb (letterAhead r2)
                 then "ς" else "σ")
                ++ lowerFrom true r2)%string
          else
            String (JS.lower_char c1)
              (lowerFrom
                 (if caseIgnorable c1 then afterLetter else asciiLetter c1)
                 r1)
      end
  end.

Definition toLowerCase (s : string) : string := lowerFrom false s.

End JSCase.

(** [NoteList.svelte]: the sidebar list.  Its props are the notes to show
    and the selected id; it dispatches [select] and [delete] events. *)
Module NoteList.

Inductive Event : Type :=
| select (id : string)
| delete (id : string).

Definition selectNote (id : string) : list Event := [select id].

(** [e.stopPropagation()] only concerns the click itself. *)
Definition deleteNote (id : string) : list Event := [delete id].

(** One [<li>] of the keyed each-block: its key, whether it carries the
    class [active] (and [aria-current]), and the text of its title span,
    [note.title || '(Untitled)'].  The date line is not part of the model. *)
Record Item : Type := mkItem {
  key : string;
  active : bool;
  shownTitle : string
}.

Inductive View : Type :=
| noNotes
| items (l : list Item).

Section Render.

Variable T : Type.

Definition item (selectedId : option string) (note : Common.Note T) : Item :=
  {| key := Common.id note;
     active := JS.strict_eq_opt selectedId (Common.id note);
     shownTitle := JS.or_else (Common.title note) "(Untitled)" |}.

Definition render (notes : list (Common.Note T)) (selectedId : option string)
  : View :=
  match notes with
  | [] => noNotes
  | _ :: _ => items (map (item selectedId) notes)
  end.

(** The events the rendered list can dispatch: a click on the select button
    or on the delete button of one of its items. *)
Definition canDispatch (notes : list (Common.Note T)) (e : Event) : bool :=
  match e with
  | select id | delete id =>
      existsb (fun note => (Common.id note =? id)%string) notes
  end.

End Render.

(** The keys of the items that carry the class [active]. *)
Definition highlighted (v : View) : list string :=
  match v with
  | noNotes => []
  | items l => map key (filter active l)
  end.

End NoteList.

(** [NoteEditor.svelte]: the detail pane.  Its props are the selected note
    and the parent's editing flag; its own state is the two working fields
    and [localEditing]. *)
Module NoteEditor.

(** The detail of the [save] event. *)
Record SaveDetail : Type := mkSaveDetail {
  s_title : string;
  s_content : string
}.

Inductive Event : Type :=
| startEditEvent
| saveEvent (detail : SaveDetail)
| cancelEvent
| deleteEvent.

Record State : Type := mkState {
  title : string;
  content : string;
  localEditing : bool
}.

Section Component.

Variable T : Type.

(** The initial values of the three [let] bindings. *)
Definition mount (note : Common.Note T) (editing : bool) : State :=
  {| title := Common.title note; content := Common.content note;
     localEditing := editing |}.

(** [$: if (note) { title = note.title; content = note.content; }], run when
    the [note] prop is set. *)
Definition noteChanged (note : Common.Note T) (st : State) : State :=
  {| title := Common.title note; content := Common.content note;
     localEditing := localEditing st |}.

(** [bind:value={title}] and [bind:value={content}] on the two inputs. *)
Definition typeTitle (value : string) (st : State) : State :=
  {| title := value; content := content st;
     localEditing := localEditing st |}.

Definition typeContent (value : string) (st : State) : State :=
  {| title := title st; content := value;
     localEditing := localEditing st |}.

Definition startEdit (st : State) : State * list Event :=
  ({| title := title st; content := content st; localEditing := true |},
   [startEditEvent]).

(** [{ title: title.trim() || 'Untitled Note', content }] *)
Definition saveDetail (st : State) : SaveDetail :=
  {| s_title := JS.or_else (JSString.trim (title st)) "Untitled Note";
     s_content := content st |}.

Definition save (st : State) : State * list Event :=
  ({| title := title st; content := content st; localEditing := false |},
   [saveEvent (saveDetail st)]).

Definition cancel (note : Common.Note T) (st : State) : State * list Event :=
  ({| title := Common.title note; content := Common.content note;
      localEditing := false |},
   [cancelEvent]).

Definition remove (st : State) : State * list Event :=
  (st, [deleteEvent]).

(** The detail of a [save] event as the [Partial<Note>] that the parent
    passes to [updateNote]. *)
Definition asPartial (d : SaveDetail) : Common.PartialNote T :=
  {| Common.p_id := None;
     Common.p_title := Some (s_title d);
     Common.p_content := Some (s_content d);
     Common.p_created := None;
     Common.p_updated := None |}.

(** What the user does in the pane between two clicks: a run of key strokes
    in the two inputs. *)
Inductive Typing : Type :=
| intoTitle (value : string)
| intoContent (value : string).

Definition typed (st : State) (k : Typing) : State :=
  match k with
  | intoTitle value => typeTitle value st
  | intoContent value => typeContent value st
  end.

End Component.

End NoteEditor.

(** The template of the local-storage component: which handler each event of
    the page runs, and what the calls to [localStorage] leave under the key
    ['notes']. *)
Module LocalApp.

(** The component state together with the value stored under ['notes']
    ([None]: nothing stored). *)
Record World : Type := mkWorld {
  app : LocalStorage.State;
  storage : option (list LocalStorage.Note)
}.

(** Whether a call of [localStorage.setItem] returns or throws (storage
    full or unavailable). *)
Inductive SetItem : Type :=
| setItemReturns
| setItemThrows.

Definition written (o : SetItem) (storage : option (list LocalStorage.Note))
  (c : LocalStorage.StorageCall) : option (list LocalStorage.Note) :=
  match c with
  | LocalStorage.getItem _ => storage
  | LocalStorage.setItem _ value =>
      match o with
      | setItemReturns => Some value
      | setItemThrows => storage
      end
  end.

Definition after (o : SetItem) (w : World)
  (r : LocalStorage.State * list LocalStorage.StorageCall) : World :=
  {| app := fst r; storage := fold_left (written o) (snd r) (storage w) |}.

Definition pure (w : World) (st : LocalStorage.State) : World :=
  {| app := st; storage := storage w |}.

(** [onMount(() => { loadNotes(); })] on a fresh component. *)
Definition mount (stored : option (list LocalStorage.Note)) : World :=
  after setItemReturns {| app := LocalStorage.initial; storage := stored |}
        (LocalStorage.loadNotes stored LocalStorage.initial).

(** What the user can do on the page.  The clock readings and the answers to
    [confirm] come with the action; [editorSave] carries the two working
    fields of the editor at the time of the click. *)
Inductive Action : Type :=
| clickCreate (now : Z)
| typeSearch (term : string)
| listSelect (id : string)
| listDelete (id : string) (confirmed : bool)
| editorStartEdit
| editorSave (editor : NoteEditor.State) (clock : nat -> Z)
| editorCancel
| editorDelete (confirmed : bool).

(** The handlers of the template.  An event of the list needs the note to be
    in the list that [NoteList] was given ([filteredNotes]); an event of the
    editor needs the editor to be there ([{#if selectedNote}]).  [None]: the
    page cannot produce the event in this state.

    [o] is the behaviour of [localStorage.setItem], should the handler call
    it.  A throw leaves the handler at once: the assignments made before
    [saveNotes()] stand, the stored value is as it was, and in the [save]
    handler [stopEditing()] is not reached. *)
Definition act (w : World) (a : Action) (o : SetItem) : option World :=
  let st := app w in
  match a with
  | clickCreate now => Some (after o w (LocalStorage.createNote now st))
  | typeSearch term => Some (pure w (LocalStorage.setSearchTerm term st))
  | listSelect id =>
      if NoteList.canDispatch (LocalStorage.filteredNotes st)
           (NoteList.select id)
      then Some (pure w (LocalStorage.selectNote id st))
      else None
  | listDelete id confirmed =>
      if NoteList.canDispatch (LocalStorage.filteredNotes st)
           (NoteList.delete id)
      then Some (after o w (LocalStorage.deleteNote confirmed id st))
      else None
  | editorStartEdit =>
      match LocalStorage.selectedNote st with
      | Some _ => Some (pure w (LocalStorage.startEditing st))
      | None => None
      end
  | editorSave editor clock =>
      match LocalStorage.selectedNote st with
      | Some selected =>
          let w' :=
            after o w
              (LocalStorage.updateNote (Common.id selected)
                 (NoteEditor.asPartial Z (NoteEditor.saveDetail editor))
                 clock st) in
          match o with
          | setItemReturns =>
              Some (pure w' (LocalStorage.stopEditing (app w')))
          | setItemThrows => Some w'
          end
      | None => None
      end
  | editorCancel =>
      match LocalStorage.selectedNote st with
      | Some _ => Some (pure w (LocalStorage.stopEditing st))
      | None => None
      end
  | editorDelete confirmed =>
      match LocalStorage.selectedNote st with
      | Some selected =>
          Some (after o w (LocalStorage.deleteNote confirmed
                             (Common.id selected) st))
      | None => None
      end
  end.

(** A run of the page: the actions taken, each with the behaviour of
    [localStorage.setItem] at that time. *)
Fixpoint run (w : World) (steps : list (Action * SetItem)) : option World :=
  match steps with
  | [] => Some w
  | step :: rest =>
      match act w (fst step) (snd step) with
      | Some w' => run w' rest
      | None => None
      end
  end.

(** The actions whose handler calls [saveNotes()]. *)
Definition writes (a : Action) : bool :=
  match a with
  | clickCreate _ | editorSave _ _ => true
  | listDelete _ confirmed | editorDelete confirmed => confirmed
  | _ => false
  end.

(** How the last call of [localStorage.setItem] of a run went, [before]
    when the run makes none. *)
Definition lastWrite (before : SetItem) (steps : list (Action * SetItem))
  : SetItem :=
  fold_left (fun acc step => if writes (fst step) then snd step else acc)
    steps before.

(** What a reload of the page would put in the list. *)
Definition reloaded (w : World) : list LocalStorage.Note :=
  LocalStorage.notes (app (mount (storage w))).

End LocalApp.

(** The template of the adapter-backed component.  Each action that reaches
    the adapter comes with the settlement of the call; actions are taken one
    at a time, each after the previous call has settled. *)
Module SupabaseApp.

(** [onMount(() => { loadNotes(); })] on a fresh component. *)
Definition mount (reply : Supabase.Settled (list Supabase.Note))
  : Supabase.State :=
  fst (Supabase.loadNotes reply Supabase.initial).

Inductive Action : Type :=
| clickCreate (now : string) (reply : Supabase.Settled Supabase.Note)
| typeSearch (term : string)
| listSelect (id : string)
| listDelete (id : string) (confirmed : bool)
    (reply : Supabase.Settled unit)
| editorStartEdit
| editorSave (editor : NoteEditor.State)
    (reply : Supabase.Settled Supabase.Note)
| editorCancel
| editorDelete (confirmed : bool) (reply : Supabase.Settled unit).

(** The handlers of the template; [None] as in the local variant.  In the
    [save] handler [updateNote] is not awaited: [stopEditing] runs before
    the call settles, and the settled update writes [notes], [loading] and
    [error] only. *)
Definition act (st : Supabase.State) (a : Action) : option Supabase.State :=
  match a with
  | clickCreate now reply => Some (fst (Supabase.createNote now reply st))
  | typeSearch term => Some (Supabase.setSearchTerm term st)
  | listSelect id =>
      if NoteList.canDispatch (Supabase.filteredNotes st)
           (NoteList.select id)
      then Some (Supabase.selectNote id st)
      else None
  | listDelete id confirmed reply =>
      if NoteList.canDispatch (Supabase.filteredNotes st)
           (NoteList.delete id)
      then Some (fst (Supabase.deleteNote confirmed id reply st))
      else None
  | editorStartEdit =>
      match Supabase.selectedNote st with
      | Some _ => Some (Supabase.startEditing st)
      | None => None
      end
  | editorSave editor reply =>
      match Supabase.selectedNote st with
      | Some selected =>
          Some (fst (Supabase.updateNote (Common.id selected)
                       (NoteEditor.asPartial string
                          (NoteEditor.saveDetail editor))
                       reply (Supabase.stopEditing st)))
      | None => None
      end
  | editorCancel =>
      match Supabase.selectedNote st with
      | Some _ => Some (Supabase.stopEditing st)
      | None => None
      end
  | editorDelete confirmed reply =>
      match Supabase.selectedNote st with
      | Some selected =>
          Some (fst (Supabase.deleteNote confirmed (Common.id selected)
                       reply st))
      | None => None
      end
  end.

Fixpoint run (st : Supabase.State) (actions : list Action)
  : option Supabase.State :=
  match actions with
  | [] => Some st
  | a :: rest =>
      match act st a with
      | Some st' => run st' rest
      | None => None
      end
  end.

(** How the adapter call of an action settled: [None] when the action makes
    no adapter call, else [Some None] for a resolved call and
    [Some (Some e)] for a call rejected with [e]. *)
Definition outcome (A : Type) (reply : Supabase.Settled A)
  : option Supabase.Thrown :=
  match reply with
  | Supabase.Resolved _ => None
  | Supabase.Rejected e => Some e
  end.

Definition settlement (a : Action) : option (option Supabase.Thrown) :=
  match a with
  | clickCreate _ reply => Some (outcome reply)
  | editorSave _ reply => Some (outcome reply)
  | listDelete _ true reply => Some (outcome reply)
  | editorDelete true reply => Some (outcome reply)
  | _ => None
  end.

(** The rejection, if any, of the last adapter call of a run that started
    after a call settled as [before]. *)
Definition lastRejection (before : option Supabase.Thrown)
  (actions : list Action) : option Supabase.Thrown :=
  fold_left
    (fun acc a => match settlement a with
                  | Some o => o
                  | None => acc
                  end)
    actions before.

(** The adapter's replies to the updates of a run confirm the note that was
    asked for: a resolved update of the selected note returns a note with
    that id. *)
Fixpoint updatesKeepId (st : Supabase.State) (actions : list Action) : Prop :=
  match actions with
  | [] => True
  | a :: rest =>
      match a, Supabase.selectedNote st with
      | editorSave _ (Supabase.Resolved confirmed), Some selected =>
          Common.id confirmed = Common.id selected
      | _, _ => True
      end
      /\ match act st a with
         | Some st' => updatesKeepId st' rest
         | None => True
         end
  end.

End SupabaseApp.

(** ** Properties of a state *)

Module Inv.

(** "the selected id, if non-null, references a note currently present in
    the list" *)
Definition selectionValid (T : Type) (notes : list (Common.Note T))
  (selectedNoteId : option string) : Prop :=
  match selectedNoteId with
  | None => True
  | Some id => In id (map (@Common.id T) notes)
  end.

(** The id of a locally created note is the decimal numeral of its creation
    time. *)
Definition idIsCreationTime (n : LocalStorage.Note) : Prop :=
  Common.id n = JS.String_of_number (Common.created n).

End Inv.

(** ** Sample runs *)

Module Scenario.

(** The editor after the user typed a padded title and a content. *)
Definition typedEditor : NoteEditor.State :=
  {| NoteEditor.title := "  Shopping list ";
     NoteEditor.content := "milk";
     NoteEditor.localEditing := true |}.

(** A visit of the local page with two notes stored: select the second
    note, edit and save it, search, create a note, delete the first. *)
Definition localStored : option (list LocalStorage.Note) :=
  Some [Sample.l1; Sample.l2].

Definition saveClock (k : nat) : Z :=
  (1710000000000 + Z.of_nat k)%Z.

(** In this visit one write to the storage throws; the next one returns. *)
Definition localVisit : list (LocalApp.Action * LocalApp.SetItem) :=
  [(LocalApp.listSelect "2", LocalApp.setItemReturns);
   (LocalApp.editorStartEdit, LocalApp.setItemReturns);
   (LocalApp.editorSave typedEditor saveClock, LocalApp.setItemThrows);
   (LocalApp.typeSearch "shop", LocalApp.setItemReturns);
   (LocalApp.clickCreate 1710000005000%Z, LocalApp.setItemReturns);
   (LocalApp.typeSearch "", LocalApp.setItemReturns);
   (LocalApp.listDelete "1" true, LocalApp.setItemReturns);
   (LocalApp.editorCancel, LocalApp.setItemReturns)].

(** A first visit of the local page, nothing stored. *)
Definition firstVisit : list (LocalApp.Action * LocalApp.SetItem) :=
  [(LocalApp.clickCreate 1710000000000%Z, LocalApp.setItemReturns);
   (LocalApp.editorSave typedEditor saveClock, LocalApp.setItemReturns);
   (LocalApp.clickCreate 1710000002000%Z, LocalApp.setItemThrows);
   (LocalApp.editorDelete false, LocalApp.setItemReturns);
   (LocalApp.listSelect "1710000000000", LocalApp.setItemReturns)].

Definition localWorld : LocalApp.World :=
  {| LocalApp.app := Sample.sl; LocalApp.storage := localStored |}.

(** A visit of the adapter-backed page: the load resolves with two notes,
    the second is selected and saved, a create is rejected, the first note
    is deleted. *)
Definition a2_saved : Supabase.Note :=
  {| Common.id := "2"; Common.title := "Shopping list";
     Common.content := "milk";
     Common.created := "";
     Common.updated := "2024-03-01T12:00:00.000Z" |}.


Definition adapterLoaded : Supabase.Settled (list Supabase.Note) :=
  Supabase.Resolved [Sample.a1; Sample.a2].

Definition adapterVisit : list SupabaseApp.Action :=
  [SupabaseApp.listSelect "2";
   SupabaseApp.editorSave typedEditor (Supabase.Resolved a2_saved);
   SupabaseApp.clickCreate "2024-03-05T07:00:00.000Z"
     (Supabase.Rejected (Supabase.ErrorObject "offline"));
   SupabaseApp.listDelete "1" false (Supabase.Resolved tt)].



Definition rejectedCreate : SupabaseApp.Action :=
  SupabaseApp.clickCreate "2024-03-05T07:00:00.000Z"
    (Supabase.Rejected (Supabase.ErrorObject "offline")).

End Scenario.

(** * Properties *)

(** ** Strings *)

Section StringFacts.

Lemma startsWith_iff (s t : string) :
  JS.startsWith s t = true <-> exists suf, s = (t ++ suf)%string.
Proof.
  revert s; induction t as [|b t IH]; intros s; simpl.
  - split; [intros _; now exists s | reflexivity].
  - destruct s as [|a s].
    + split; [discriminate | intros [suf H]; discriminate].
    + rewrite andb_true_iff, Ascii.eqb_eq, IH. split.
      * intros [-> [suf ->]]. now exists suf.
      * intros [suf H]. injection H as -> ->. split; [reflexivity | now exists suf].
Qed.

Lemma includes_iff (s t : string) :
  JS.includes s t = true <-> exists pre suf, s = (pre ++ t ++ suf)%string.
Proof.
  induction s as [|a s IH]; simpl.
  - rewrite startsWith_iff. split.
    + intros [suf H]. now exists EmptyString, suf.
    + intros [pre [suf H]]. destruct pre; [now exists suf | discriminate].
  - rewrite orb_true_iff, startsWith_iff, IH. split.
    + intros [[suf H] | [pre [suf H]]].
      * now exists EmptyString, suf.
      * exists (String a pre), suf. simpl. now rewrite H.
    + intros [pre [suf H]]. destruct pre as [|c pre]; simpl in H.
      * left. now exists suf.
      * right. injection H as _ H. now exists pre, suf.
Qed.

Lemma truthy_false_iff (s : string) : JS.truthy s = false <-> s = "".
Proof. destruct s; simpl; split; congruence. Qed.

(** [String(n)] is injective on integers. *)
Lemma String_of_number_inj (m n : Z) :
  JS.String_of_number m = JS.String_of_number n -> m = n.
Proof.
  unfold JS.String_of_number. intros H.
  apply (f_equal NilEmpty.int_of_string) in H.
  rewrite !NilEmpty.isi in H. injection H as H.
  apply (f_equal Z.of_int) in H. now rewrite !DecimalZ.of_to in H.
Qed.

End StringFacts.

(** ** The derived views *)

Section DerivedViews.

Variable T : Type.



Lemma findSelected_some (l : list (Common.Note T)) (sel : option string)
  (n : Common.Note T) :
  Common.findSelected l sel = Some n -> In n l /\ sel = Some (Common.id n).
Proof.
  unfold Common.findSelected. intros H. apply find_some in H.
  destruct H as [Hin H]. split; [assumption|].
  destruct sel as [x|]; simpl in H; [|discriminate].
  apply String.eqb_eq in H. now subst.
Qed.

End DerivedViews.



(** C10.  In both variants, setting the search term does not change the
    selected id, and the selected note is looked up in the full list: a
    selected note that the search term excludes from the visible notes is
    still the selected note. *)
Theorem search_keeps_selection
  (sa : Supabase.State) (sl : LocalStorage.State) (t : string) :
  (Supabase.selectedNoteId (Supabase.setSearchTerm t sa)
   = Supabase.selectedNoteId sa
   /\ forall n,
       Supabase.selectedNote sa = Some n ->
       ~ In n (Supabase.filteredNotes (Supabase.setSearchTerm t sa)) ->
       Supabase.selectedNote (Supabase.setSearchTerm t sa) = Some n)
  /\ (LocalStorage.selectedNoteId (LocalStorage.setSearchTerm t sl)
      = LocalStorage.selectedNoteId sl
      /\ forall n,
          LocalStorage.selectedNote sl = Some n ->
          ~ In n (LocalStorage.filteredNotes
                    (LocalStorage.setSearchTerm t sl)) ->
          LocalStorage.selectedNote (LocalStorage.setSearchTerm t sl)
          = Some n).
Proof.
  split; (split; [reflexivity|]); intros n Hsel _; exact Hsel.
Qed.

(** ** Deleting *)

Section Deleting.

Variable T : Type.

Lemma firstId_is_firstIdOrNull (l : list (Common.Note T)) :
  Common.firstId l = Spec.firstIdOrNull l.
Proof. destruct l; reflexivity. Qed.

Lemma strict_eq_opt_same (id : string) : JS.strict_eq_opt (Some id) id = true.
Proof. simpl. apply String.eqb_refl. Qed.

Lemma removeId_absent (id0 : string) (l : list (Common.Note T)) :
  ~ In id0 (map (@Common.id T) (Common.removeId id0 l)).
Proof.
  unfold Common.removeId. intros H. apply in_map_iff in H.
  destruct H as [n [Hid Hin]]. apply filter_In in Hin.
  destruct Hin as [_ Hne]. apply negb_true_iff, String.eqb_neq in Hne.
  contradiction.
Qed.

Lemma removeId_keeps_others (id0 : string) (l : list (Common.Note T))
  (n : Common.Note T) :
  In n (Common.removeId id0 l) <-> In n l /\ Common.id n <> id0.
Proof.
  unfold Common.removeId. rewrite filter_In, negb_true_iff, String.eqb_neq.
  reflexivity.
Qed.

End Deleting.

(** C2.  In both variants: when the delete of [id] is confirmed (and, in the
    adapter-backed variant, the adapter call resolves) and [id] is the
    selected id, the list loses the notes with that id and the selected id
    becomes the id of the first remaining note, or null when none remains. *)
Theorem delete_selected_moves_selection
  (sa : Supabase.State) (sl : LocalStorage.State) (id : string)
  (Ha : Supabase.selectedNoteId sa = Some id)
  (Hl : LocalStorage.selectedNoteId sl = Some id) :
  (let sa' := fst (Supabase.deleteNote true id (Supabase.Resolved tt) sa) in
   (forall n, In n (Supabase.notes sa')
              <-> In n (Supabase.notes sa) /\ Common.id n <> id)
   /\ Supabase.selectedNoteId sa' = Spec.firstIdOrNull (Supabase.notes sa'))
  /\ (let sl' := fst (LocalStorage.deleteNote true id sl) in
      (forall n, In n (LocalStorage.notes sl')
                 <-> In n (LocalStorage.notes sl) /\ Common.id n <> id)
      /\ LocalStorage.selectedNoteId sl'
         = Spec.firstIdOrNull (LocalStorage.notes sl')).
Proof.
  split; simpl; (split; [intros n; apply removeId_keeps_others|]).
  - rewrite Ha, strict_eq_opt_same. apply firstId_is_firstIdOrNull.
  - rewrite Hl, strict_eq_opt_same. apply firstId_is_firstIdOrNull.
Qed.

(** C3.  In both variants: when the user declines the confirmation, delete
    returns the state it was given (note list, selected id, search term,
    editing flag and every other field) and makes no call to the persistence
    backend, whatever the id and whatever the adapter would have answered. *)
Theorem delete_declined_is_noop
  (sa : Supabase.State) (sl : LocalStorage.State) (id : string)
  (reply : Supabase.Settled unit) :
  Supabase.deleteNote false id reply sa = (sa, [])
  /\ LocalStorage.deleteNote false id sl = (sl, []).
Proof. split; reflexivity. Qed.

(** ** Creating *)

(** C5.  When the adapter's create call is rejected, createNote leaves the
    note list, the selected id, the editing flag and the search term as they
    were, and sets the error message (the message of the thrown error, or
    "Failed to create note"); the one adapter call made is the create. *)
Theorem create_failure_keeps_state
  (now : string) (e : Supabase.Thrown) (st : Supabase.State) :
  let st' := fst (Supabase.createNote now (Supabase.Rejected e) st) in
  Supabase.notes st' = Supabase.notes st
  /\ Supabase.selectedNoteId st' = Supabase.selectedNoteId st
  /\ Supabase.editing st' = Supabase.editing st
  /\ Supabase.searchTerm st' = Supabase.searchTerm st
  /\ Supabase.error st' <> None
  /\ Supabase.error st'
     = Some match e with
            | Supabase.ErrorObject message => message
            | Supabase.OtherValue => "Failed to create note"
            end
  /\ snd (Supabase.createNote now (Supabase.Rejected e) st)
     = [Supabase.supabaseCreateNote (Supabase.noteData now)].
Proof.
  simpl. repeat split; destruct e; simpl; congruence.
Qed.

(** C8.  After a successful create, the new note, titled "Untitled Note" and
    with empty content, is at the head of the list in front of the notes that
    were there, its id is the selected id and editing is true; from the empty
    store the list is exactly that note.  In the adapter-backed variant the
    new note is the one the adapter confirmed for the submitted data. *)
Theorem create_success_prepends_and_selects
  (now : string) (confirmed : Supabase.Note) (sa : Supabase.State)
  (nowl : Z) (sl : LocalStorage.State)
  (Hc : Spec.createConfirms (Supabase.noteData now) confirmed) :
  (let sa' :=
     fst (Supabase.createNote now (Supabase.Resolved confirmed) sa) in
   Supabase.notes sa' = confirmed :: Supabase.notes sa
   /\ Common.title confirmed = "Untitled Note"
   /\ Common.content confirmed = ""
   /\ Supabase.selectedNoteId sa' = Some (Common.id confirmed)
   /\ Supabase.editing sa' = true
   /\ Supabase.notes
        (fst (Supabase.createNote now (Supabase.Resolved confirmed)
                Supabase.initial))
      = [confirmed])
  /\ (let sl' := fst (LocalStorage.createNote nowl sl) in
      exists note,
        LocalStorage.notes sl' = note :: LocalStorage.notes sl
        /\ Common.title note = "Untitled Note"
        /\ Common.content note = ""
        /\ LocalStorage.selectedNoteId sl' = Some (Common.id note)
        /\ LocalStorage.editing sl' = true
        /\ LocalStorage.notes
             (fst (LocalStorage.createNote nowl LocalStorage.initial))
           = [note]).
Proof.
  destruct Hc as [Ht Hb]. split.
  - simpl. repeat split; assumption.
  - simpl. eexists. repeat split.
Qed.

(** ** Updating *)

Section Updating.

Variable T : Type.



End Updating.

(** The local [updateNote], note by note. *)


Lemma updateEach_keeps_ids (id0 : string) (p : LocalStorage.PartialNote)
  (clock : nat -> Z) (l : list LocalStorage.Note) :
  Common.p_id p = None ->
  forall from : nat,
    map (@Common.id Z) (LocalStorage.updateEach id0 p clock from l)
    = map (@Common.id Z) l.
Proof.
  intros Hp. induction l as [|n l IH]; intros from; simpl; [reflexivity|].
  destruct (Common.id n =? id0)%string; simpl; rewrite IH;
    [now rewrite Hp | reflexivity].
Qed.

Lemma updateEach_absent_id (id0 : string) (p : LocalStorage.PartialNote)
  (clock : nat -> Z) (l : list LocalStorage.Note) :
  ~ In id0 (map (@Common.id Z) l) ->
  forall from : nat, LocalStorage.updateEach id0 p clock from l = l.
Proof.
  induction l as [|n l IH]; intros H from; simpl; [reflexivity|].
  destruct (Common.id n =? id0)%string eqn:E.
  - apply String.eqb_eq in E. exfalso. apply H. now left.
  - f_equal. apply IH. intros Hin. apply H. now right.
Qed.

Lemma updateEach_title_twice (id0 x : string) (c1 c2 : nat -> Z)
  (l : list LocalStorage.Note) :
  forall k1 k2 : nat,
    map (@Common.title Z)
      (LocalStorage.updateEach id0 (Spec.titleOnly x) c2 k2
         (LocalStorage.updateEach id0 (Spec.titleOnly x) c1 k1 l))
    = map (@Common.title Z)
        (LocalStorage.updateEach id0 (Spec.titleOnly x) c1 k1 l).
Proof.
  induction l as [|n l IH]; intros k1 k2; simpl; [reflexivity|].
  destruct (Common.id n =? id0)%string eqn:E; simpl; rewrite E; simpl;
    now rewrite IH.
Qed.

Lemma updateEach_title_set (id0 x : string) (clock : nat -> Z)
  (l : list LocalStorage.Note) (n : LocalStorage.Note) :
  In n l -> Common.id n = id0 ->
  forall from : nat,
    In x (map (@Common.title Z)
            (LocalStorage.updateEach id0 (Spec.titleOnly x) clock from l)).
Proof.
  intros Hin Hid. induction l as [|m l IH]; intros from; simpl in *;
    [contradiction|].
  destruct Hin as [-> | Hin].
  - apply String.eqb_eq in Hid. rewrite Hid. now left.
  - destruct (Common.id m =? id0)%string; simpl; right; now apply IH.
Qed.



(** C9.  Updating the title of [id] to [x] twice in a row leaves every note
    with the title it has after the first update, in both variants (in the
    adapter-backed one, for adapter replies that confirm the title [x]). *)
Theorem update_title_twice_same_title
  (id x : string) (r1 r2 : Supabase.Note) (sa : Supabase.State)
  (clock1 clock2 : nat -> Z) (sl : LocalStorage.State)
  (H1 : Common.title r1 = x) (H2 : Common.title r2 = x) :
  (let once :=
     fst (Supabase.updateNote id (Spec.titleOnly x) (Supabase.Resolved r1)
            sa) in
   let twice :=
     fst (Supabase.updateNote id (Spec.titleOnly x) (Supabase.Resolved r2)
            once) in
   map (@Common.title string) (Supabase.notes twice)
   = map (@Common.title string) (Supabase.notes once)
   /\ forall n, In n (Supabase.notes sa) -> Common.id n = id ->
                In x (map (@Common.title string) (Supabase.notes twice)))
  /\ (let once :=
        fst (LocalStorage.updateNote id (Spec.titleOnly x) clock1 sl) in
      let twice :=
        fst (LocalStorage.updateNote id (Spec.titleOnly x) clock2 once) in
      map (@Common.title Z) (LocalStorage.notes twice)
      = map (@Common.title Z) (LocalStorage.notes once)
      /\ forall n, In n (LocalStorage.notes sl) -> Common.id n = id ->
                   In x (map (@Common.title Z) (LocalStorage.notes twice))).
Proof.
  split; simpl.
  - assert (E : map (@Common.title string)
                  (map (fun n => if (Common.id n =? id)%string
                                 then Common.spread n (Common.all_fields r2)
                                 else n)
                     (map (fun n => if (Common.id n =? id)%string
                                    then Common.spread n
                                           (Common.all_fields r1)
                                    else n) (Supabase.notes sa)))
                = map (@Common.title string)
                    (map (fun n => if (Common.id n =? id)%string
                                   then Common.spread n
                                          (Common.all_fields r1)
                                   else n) (Supabase.notes sa))).
    { rewrite !map_map. apply map_ext. intros n.
      destruct (Common.id n =? id)%string eqn:E; simpl.
      - destruct (Common.id r1 =? id)%string; simpl; congruence.
      - now rewrite E. }
    split; [exact E|]. intros n Hin Hid. rewrite E, map_map.
    apply in_map_iff. exists n. split; [|assumption].
    apply String.eqb_eq in Hid. now rewrite Hid.
  - split; [apply updateEach_title_twice|].
    intros n Hin Hid. rewrite updateEach_title_twice.
    exact (updateEach_title_set x clock1 _ _ Hin Hid 0).
Qed.

(** ** Loading *)

Lemma normalized_loadedFrom (r : Supabase.Note) :
  Spec.loadedFrom r (Supabase.normalized r).
Proof.
  unfold Spec.loadedFrom, Supabase.normalized, JS.or_else; simpl.
  repeat split. destruct (Common.created r); reflexivity.
Qed.

(** C7, as amended.  In the adapter-backed variant a load that resolves
    replaces the list, whatever it was and whatever was selected, by the
    returned notes in the returned order, each with an empty [created]
    taken from [updated]; and, when no note was selected, it selects the
    first returned note if there is one.  In the local variant load
    replaces the list by the stored array (empty when nothing is stored)
    and leaves the selected id as it was. *)
Theorem load_replaces_list
  (data : list Supabase.Note) (sa : Supabase.State)
  (stored : option (list LocalStorage.Note)) (sl : LocalStorage.State) :
  (let sa' := fst (Supabase.loadNotes (Supabase.Resolved data) sa) in
   Forall2 Spec.loadedFrom data (Supabase.notes sa')
   /\ (Supabase.selectedNoteId sa = None ->
       Supabase.selectedNoteId sa' = Spec.firstIdOrNull data))
  /\ (let sl' := fst (LocalStorage.loadNotes stored sl) in
      LocalStorage.notes sl' = match stored with
                               | Some parsed => parsed
                               | None => []
                               end
      /\ LocalStorage.selectedNoteId sl' = LocalStorage.selectedNoteId sl).
Proof.
  split; [|split; reflexivity]. simpl. split.
  - induction data as [|r data IH]; simpl; constructor;
      [apply normalized_loadedFrom | exact IH].
  - intros Ha. rewrite Ha. destruct data; reflexivity.
Qed.

(** C7, as stated, fails in the local variant: with one note stored and no
    note selected, load leaves the selection empty. *)
Lemma local_load_does_not_select :
  let st' :=
    fst (LocalStorage.loadNotes (Some [Sample.l1]) LocalStorage.initial) in
  LocalStorage.selectedNoteId st' = None
  /\ ~ Spec.loadsAndSelectsFirst
         (LocalStorage.selectedNoteId LocalStorage.initial)
         [Sample.l1] (LocalStorage.notes st')
         (LocalStorage.selectedNoteId st').
Proof.
  simpl. split; [reflexivity|]. intros [_ H].
  assert (E : None = Spec.firstIdOrNull [Sample.l1])
    by (apply H; [reflexivity | discriminate]).
  discriminate E.
Qed.

(** In the adapter-backed variant the loaded list is not always the returned
    list either: a returned note without [created] is stored with one. *)
Lemma adapter_load_fills_created :
  Supabase.notes
    (fst (Supabase.loadNotes (Supabase.Resolved [Sample.a2])
            Supabase.initial))
  <> [Sample.a2].
Proof. simpl. discriminate. Qed.

Lemma load_replaces_list_witness :
  Supabase.selectedNoteId
    (fst (Supabase.loadNotes (Supabase.Resolved [Sample.a1; Sample.a2])
            Supabase.initial))
  = Some "1".
Proof.
  exact (proj2 (proj1 (@load_replaces_list [Sample.a1; Sample.a2]
                         Supabase.initial (Some [Sample.l1]) Sample.sl))
           eq_refl).
Defined.

(** ** Distinct ids *)

Section DistinctIds.

Variable T : Type.

Lemma removeId_ids_incl (id0 x : string) (l : list (Common.Note T)) :
  In x (map (@Common.id T) (Common.removeId id0 l)) ->
  In x (map (@Common.id T) l).
Proof.
  rewrite !in_map_iff. intros [n [Hx Hin]].
  apply removeId_keeps_others in Hin. exists n. tauto.
Qed.

Lemma removeId_distinct (id0 : string) (l : list (Common.Note T)) :
  Spec.distinctIds l -> Spec.distinctIds (Common.removeId id0 l).
Proof.
  unfold Spec.distinctIds.
  induction l as [|n l IH]; simpl; intros H; [constructor|].
  inversion H as [|? ? Hn Hl]; subst.
  destruct (negb (Common.id n =? id0)%string); simpl.
  - constructor; [|now apply IH].
    intros Hin. apply Hn. now apply removeId_ids_incl in Hin.
  - now apply IH.
Qed.

Lemma cons_distinct (n : Common.Note T) (l : list (Common.Note T)) :
  ~ In (Common.id n) (map (@Common.id T) l) ->
  Spec.distinctIds l -> Spec.distinctIds (n :: l).
Proof. intros Hn Hl. unfold Spec.distinctIds; simpl. now constructor. Qed.

End DistinctIds.

(** In the adapter-backed variant a session of creates and deletes keeps the
    ids distinct as long as the adapter never hands out an id twice. *)
Lemma adapter_session_distinct_from (intents : list Supabase.Intent) :
  forall st : Supabase.State,
    NoDup (Supabase.assignedIds intents) ->
    (forall x, In x (Supabase.assignedIds intents) ->
               ~ In x (map (@Common.id string) (Supabase.notes st))) ->
    Spec.distinctIds (Supabase.notes st) ->
    Spec.distinctIds
      (Supabase.notes (fold_left Supabase.perform intents st)).
Proof.
  induction intents as [|i intents IH]; intros st Hnd Hfresh Hst; simpl;
    [assumption|].
  destruct i as [now [note|e] | confirmed id [u|e]]; simpl in *.
  - inversion Hnd as [|? ? Hx Hrest]; subst. apply IH; simpl.
    + assumption.
    + intros x Hin [Heq | Hold].
      * apply Hx. now rewrite Heq.
      * apply (Hfresh x); [now right | assumption].
    + apply cons_distinct; [apply Hfresh; now left | assumption].
  - apply IH; assumption.
  - destruct confirmed; simpl; apply IH; simpl; try assumption.
    + intros x Hin Hold. apply (Hfresh x Hin).
      now apply removeId_ids_incl in Hold.
    + now apply removeId_distinct.
  - destruct confirmed; simpl; apply IH; assumption.
Qed.

Lemma adapter_session_distinct (intents : list Supabase.Intent) :
  NoDup (Supabase.assignedIds intents) ->
  Spec.distinctIds (Supabase.notes (Supabase.session intents)).
Proof.
  intros H. apply adapter_session_distinct_from; [assumption | | constructor].
  intros x _ [].
Qed.

(** In the local variant a session of creates and deletes keeps the ids
    distinct as long as no two creates read the same clock value. *)
Lemma local_session_distinct_from (intents : list LocalStorage.Intent) :
  forall st : LocalStorage.State,
    NoDup (LocalStorage.clockReadings intents) ->
    (forall now, In now (LocalStorage.clockReadings intents) ->
                 ~ In (JS.String_of_number now)
                      (map (@Common.id Z) (LocalStorage.notes st))) ->
    Spec.distinctIds (LocalStorage.notes st) ->
    Spec.distinctIds
      (LocalStorage.notes (fold_left LocalStorage.perform intents st)).
Proof.
  induction intents as [|i intents IH]; intros st Hnd Hfresh Hst; simpl;
    [assumption|].
  destruct i as [now | confirmed id]; simpl in *.
  - inversion Hnd as [|? ? Hx Hrest]; subst. apply IH; simpl.
    + assumption.
    + intros x Hin [Heq | Hold].
      * apply String_of_number_inj in Heq. apply Hx. now rewrite Heq.
      * apply (Hfresh x); [now right | assumption].
    + apply (@cons_distinct Z); [apply Hfresh; now left | assumption].
  - destruct confirmed; simpl; apply IH; simpl; try assumption.
    + intros x Hin Hold. apply (Hfresh x Hin).
      now apply removeId_ids_incl in Hold.
    + now apply removeId_distinct.
Qed.

Lemma local_session_distinct (intents : list LocalStorage.Intent) :
  NoDup (LocalStorage.clockReadings intents) ->
  Spec.distinctIds (LocalStorage.notes (LocalStorage.session intents)).
Proof.
  intros H. apply local_session_distinct_from; [assumption | | constructor].
  intros x _ [].
Qed.

(** C1.  The local variant takes the id of a new note from the clock: two
    creates that read the same millisecond, starting from the empty store,
    leave two notes with the same id in the list. *)
Theorem local_create_same_millisecond_duplicates_id :
  let st :=
    LocalStorage.session
      [LocalStorage.Create 1700000000000%Z;
       LocalStorage.Create 1700000000000%Z] in
  map (@Common.id Z) (LocalStorage.notes st)
  = ["1700000000000"; "1700000000000"]
  /\ ~ Spec.distinctIds (LocalStorage.notes st).
Proof.
  split; [reflexivity|]. intros H. unfold Spec.distinctIds in H.
  inversion H as [|? ? Hx _]; subst. apply Hx. now left.
Qed.

(** ** The properties at the sample data *)

Example filter_by_content_ignores_case :
  Supabase.filteredNotes (Supabase.setSearchTerm "eggs" Sample.sa)
  = [Sample.a1]
  /\ LocalStorage.filteredNotes (LocalStorage.setSearchTerm "ROCK" Sample.sl)
     = [Sample.l2].
Proof. split; reflexivity. Qed.

Example update_then_select_scenario :
  LocalStorage.notes
    (fst (LocalStorage.updateNote "2" (Spec.titleOnly "X")
            Scenario.saveClock Sample.sl))
  = [Sample.l1;
     {| Common.id := "2"; Common.title := "X";
        Common.content := "a rocket";
        Common.created := 1706781600000%Z;
        Common.updated := 1710000000000%Z |}].
Proof. reflexivity. Qed.


Lemma search_keeps_selection_witness :
  Supabase.filteredNotes (Supabase.setSearchTerm "rocket" Sample.sa)
  = [Sample.a2]
  /\ Supabase.selectedNote (Supabase.setSearchTerm "rocket" Sample.sa)
     = Some Sample.a1
  /\ LocalStorage.selectedNote
       (LocalStorage.setSearchTerm "rocket" Sample.sl)
     = Some Sample.l1.
Proof.
  destruct (search_keeps_selection Sample.sa Sample.sl "rocket")
    as [[_ Ha] [_ Hl]].
  split; [reflexivity|]. split.
  - apply Ha; [reflexivity|]. simpl. intros [H|[]]. discriminate H.
  - apply Hl; [reflexivity|]. simpl. intros [H|[]]. discriminate H.
Defined.

Lemma delete_selected_moves_selection_witness :
  (Supabase.notes
     (fst (Supabase.deleteNote true "1" (Supabase.Resolved tt) Sample.sa))
   = [Sample.a2]
   /\ Supabase.selectedNoteId
        (fst (Supabase.deleteNote true "1" (Supabase.Resolved tt) Sample.sa))
      = Some "2")
  /\ (LocalStorage.notes (fst (LocalStorage.deleteNote true "1" Sample.sl))
      = [Sample.l2]
      /\ LocalStorage.selectedNoteId
           (fst (LocalStorage.deleteNote true "1" Sample.sl))
         = Some "2").
Proof.
  destruct (@delete_selected_moves_selection Sample.sa Sample.sl "1"
              eq_refl eq_refl) as [[_ Ha] [_ Hl]].
  split; (split; [reflexivity|]); [exact Ha | exact Hl].
Defined.

Lemma create_success_prepends_and_selects_witness :
  Supabase.notes
    (fst (Supabase.createNote "2024-03-05T07:00:00.000Z"
            (Supabase.Resolved Sample.a3) Sample.sa))
  = [Sample.a3; Sample.a1; Sample.a2]
  /\ Supabase.selectedNoteId
       (fst (Supabase.createNote "2024-03-05T07:00:00.000Z"
               (Supabase.Resolved Sample.a3) Sample.sa))
     = Some "3".
Proof.
  assert (Hc : Spec.createConfirms
                 (Supabase.noteData "2024-03-05T07:00:00.000Z") Sample.a3)
    by (split; reflexivity).
  destruct (@create_success_prepends_and_selects
              "2024-03-05T07:00:00.000Z" Sample.a3 Sample.sa
              1709622000000%Z Sample.sl Hc) as [[Hn [_ [_ [Hs _]]]] _].
  split; [exact Hn | exact Hs].
Defined.

(** The local update reads the clock once for each note that has the id:
    two notes with one id get two readings. *)
Example update_reads_clock_per_note :
  map (@Common.updated Z)
    (LocalStorage.notes
       (fst (LocalStorage.updateNote "1700000000000" (Spec.titleOnly "X")
               Scenario.saveClock
               (LocalStorage.session
                  [LocalStorage.Create 1700000000000%Z;
                   LocalStorage.Create 1700000000000%Z]))))
  = [1710000000000%Z; 1710000000001%Z].
Proof. reflexivity. Qed.

Lemma update_title_twice_same_title_witness :
  map (@Common.title Z)
    (LocalStorage.notes
       (fst (LocalStorage.updateNote "1" (Spec.titleOnly "X")
               (fun _ => 1710000000001%Z)
               (fst (LocalStorage.updateNote "1" (Spec.titleOnly "X")
                       Scenario.saveClock Sample.sl)))))
  = ["X"; "Ideas"].
Proof.
  destruct (@update_title_twice_same_title "1" "X"
              Sample.a1_retitled Sample.a1_retitled
              Sample.sa Scenario.saveClock (fun _ => 1710000000001%Z)
              Sample.sl eq_refl eq_refl) as [_ [Hl _]].
  exact Hl.
Defined.

(** * Further properties of the components *)

(** ** Trimming *)

Section Trimming.

Lemma trimStart_unfold (s : string) :
  JSString.trimStart s
  = match JSString.dropWhiteSpace s with
    | Some rest => JSString.trimStart rest
    | None => s
    end.
Proof.
  destruct s as [|c1 [|c2 [|c3 r]]]; simpl; try reflexivity.
  - destruct (JSString.whiteSpace1 c1); reflexivity.
  - destruct (JSString.whiteSpace1 c1); [reflexivity|].
    destruct (JSString.whiteSpace2 c1 c2); reflexivity.
  - destruct (JSString.whiteSpace1 c1); [reflexivity|].
    destruct (JSString.whiteSpace2 c1 c2); [reflexivity|].
    destruct (JSString.whiteSpace3 c1 c2 c3); reflexivity.
Qed.

(** A white-space character at the front of [s] is one, two or three bytes
    of [s]. *)
Lemma dropWhiteSpace_some (s rest : string) :
  JSString.dropWhiteSpace s = Some rest ->
  exists ws,
    s = (ws ++ rest)%string
    /\ JSString.dropWhiteSpace ws = Some EmptyString
    /\ String.length rest < String.length s.
Proof.
  destruct s as [|c1 [|c2 [|c3 r]]]; simpl; try discriminate.
  - destruct (JSString.whiteSpace1 c1) eqn:E1; [|discriminate].
    intros [= <-]. exists (String c1 ""). simpl. rewrite E1.
    repeat split; lia.
  - destruct (JSString.whiteSpace1 c1) eqn:E1.
    + intros [= <-]. exists (String c1 ""). simpl. rewrite E1.
      repeat split; lia.
    + destruct (JSString.whiteSpace2 c1 c2) eqn:E2; [|discriminate].
      intros [= <-]. exists (String c1 (String c2 "")). simpl.
      rewrite E1, E2. repeat split; lia.
  - destruct (JSString.whiteSpace1 c1) eqn:E1.
    + intros [= <-]. exists (String c1 ""). simpl. rewrite E1.
      repeat split; lia.
    + destruct (JSString.whiteSpace2 c1 c2) eqn:E2.
      * intros [= <-]. exists (String c1 (String c2 "")). simpl.
        rewrite E1, E2. repeat split; lia.
      * destruct (JSString.whiteSpace3 c1 c2 c3) eqn:E3; [|discriminate].
        intros [= <-]. exists (String c1 (String c2 (String c3 ""))).
        simpl. rewrite E1, E2, E3. repeat split; lia.
Qed.

Lemma dropWhiteSpace_app (s rest more : string) :
  JSString.dropWhiteSpace s = Some rest ->
  JSString.dropWhiteSpace (s ++ more) = Some (rest ++ more)%string.
Proof.
  destruct s as [|c1 [|c2 [|c3 r]]]; simpl; try discriminate.
  - destruct (JSString.whiteSpace1 c1); [|discriminate].
    now intros [= <-].
  - destruct (JSString.whiteSpace1 c1); [now intros [= <-]|].
    destruct (JSString.whiteSpace2 c1 c2); [|discriminate].
    now intros [= <-].
  - destruct (JSString.whiteSpace1 c1); [now intros [= <-]|].
    destruct (JSString.whiteSpace2 c1 c2); [now intros [= <-]|].
    destruct (JSString.whiteSpace3 c1 c2 c3); [|discriminate].
    now intros [= <-].
Qed.

Lemma string_app_assoc (a b c : string) :
  ((a ++ b) ++ c)%string = (a ++ b ++ c)%string.
Proof. induction a as [|x a IH]; simpl; [reflexivity | now rewrite IH]. Qed.

Lemma string_app_nil_r (a : string) : (a ++ "")%string = a.
Proof. induction a as [|x a IH]; simpl; [reflexivity | now rewrite IH]. Qed.

Lemma string_app_length (a b : string) :
  String.length (a ++ b) = String.length a + String.length b.
Proof. induction a as [|x a IH]; simpl; [reflexivity | now rewrite IH]. Qed.

Lemma blank_iff (s : string) :
  JSString.blank s = true <-> JSString.trimStart s = "".
Proof.
  unfold JSString.blank. destruct (JSString.trimStart s); split;
    congruence.
Qed.

(** Induction on a string along [dropWhiteSpace]. *)
Lemma by_length (P : string -> Prop) :
  (forall s, (forall r, String.length r < String.length s -> P r) -> P s) ->
  forall s, P s.
Proof.
  intros H s.
  assert (G : forall n r, String.length r < n -> P r).
  { induction n as [|n IH]; intros r Hr; [lia|].
    apply H. intros r' Hr'. apply IH. lia. }
  apply (G (S (String.length s))). lia.
Qed.

Lemma trimStart_not_beginning (s : string) :
  JSString.dropWhiteSpace (JSString.trimStart s) = None.
Proof.
  induction s as [s IH] using by_length.
  rewrite trimStart_unfold.
  destruct (JSString.dropWhiteSpace s) as [rest|] eqn:E; [|exact E].
  apply IH. apply dropWhiteSpace_some in E. destruct E as [ws [_ [_ H]]].
  exact H.
Qed.

Lemma trimStart_split (s : string) :
  exists pre,
    s = (pre ++ JSString.trimStart s)%string /\ JSString.blank pre = true.
Proof.
  induction s as [s IH] using by_length.
  rewrite trimStart_unfold.
  destruct (JSString.dropWhiteSpace s) as [rest|] eqn:E.
  - destruct (dropWhiteSpace_some _ E) as [ws [Hs [Hws Hlen]]].
    destruct (IH rest Hlen) as [pre [Hrest Hpre]].
    exists (ws ++ pre)%string. split.
    + rewrite string_app_assoc, <- Hrest. exact Hs.
    + apply blank_iff. rewrite trimStart_unfold.
      rewrite (dropWhiteSpace_app _ pre Hws). simpl.
      now apply blank_iff.
  - exists EmptyString. split; reflexivity.
Qed.

Lemma blank_app (a b : string) :
  JSString.blank a = true -> JSString.blank b = true ->
  JSString.blank (a ++ b) = true.
Proof.
  rewrite !blank_iff. intros Ha Hb. revert Ha.
  induction a as [a IH] using by_length. intros Ha.
  rewrite trimStart_unfold in Ha.
  destruct (JSString.dropWhiteSpace a) as [rest|] eqn:E.
  - rewrite trimStart_unfold, (dropWhiteSpace_app _ b E).
    apply IH; [|exact Ha].
    apply dropWhiteSpace_some in E. destruct E as [ws [_ [_ H]]]. exact H.
  - subst a. exact Hb.
Qed.

Lemma trimStart_fixed (s : string) :
  JSString.dropWhiteSpace s = None -> JSString.trimStart s = s.
Proof. intros H. now rewrite trimStart_unfold, H. Qed.

Lemma trimEnd_blank (s : string) :
  JSString.blank s = true -> JSString.trimEnd s = "".
Proof. destruct s; simpl; [reflexivity|]. now intros ->. Qed.

Lemma trimEnd_split (s : string) :
  exists suf,
    s = (JSString.trimEnd s ++ suf)%string /\ JSString.blank suf = true.
Proof.
  induction s as [|c s [suf [Hs Hsuf]]].
  - exists EmptyString. split; reflexivity.
  - cbn [JSString.trimEnd].
    destruct (JSString.blank (String c s)) eqn:E.
    + exists (String c s). split; [reflexivity | exact E].
    + exists suf. split; [simpl; now rewrite <- Hs | exact Hsuf].
Qed.

(** [trimEnd] cuts at the first point from which only white space
    follows. *)
Lemma trimEnd_cut (front rest : string) :
  JSString.blank rest = true ->
  exists more, front = (JSString.trimEnd (front ++ rest) ++ more)%string.
Proof.
  intros Hrest. induction front as [|c front [more IH]].
  - exists EmptyString. simpl. now rewrite (trimEnd_blank _ Hrest).
  - cbn [append JSString.trimEnd].
    destruct (JSString.blank (String c (front ++ rest))).
    + now exists (String c front).
    + exists more. simpl. now rewrite <- IH.
Qed.

Lemma trimEnd_not_ending (s : string) :
  ~ JSString.endsWithWhiteSpace (JSString.trimEnd s).
Proof.
  intros [front [last [Hu Hlast]]].
  destruct (trimEnd_split s) as [suf [Hs Hsuf]].
  assert (Hb : JSString.blank (last ++ suf) = true).
  { apply blank_app; [|exact Hsuf]. apply blank_iff.
    now rewrite trimStart_unfold, Hlast. }
  destruct (trimEnd_cut front _ Hb) as [more Hm].
  rewrite <- string_app_assoc, <- Hu, <- Hs, Hu in Hm.
  apply (f_equal String.length) in Hm.
  rewrite !string_app_length in Hm.
  destruct last; [discriminate Hlast|]. simpl in Hm. lia.
Qed.

Lemma blank_ends_with_white_space (w : string) :
  JSString.blank w = true -> w <> "" -> JSString.endsWithWhiteSpace w.
Proof.
  induction w as [w IH] using by_length. intros Hw Hne.
  apply blank_iff in Hw. rewrite trimStart_unfold in Hw.
  destruct (JSString.dropWhiteSpace w) as [rest|] eqn:E; [|contradiction].
  destruct (dropWhiteSpace_some _ E) as [ws [Hw' [Hws Hlen]]].
  destruct rest as [|d rest].
  - exists EmptyString, w. split; [reflexivity|]. exact E.
  - destruct (IH (String d rest) Hlen) as [front [last [Hr Hl]]];
      [now apply blank_iff | discriminate |].
    exists (ws ++ front)%string, last. split; [|exact Hl].
    now rewrite string_app_assoc, <- Hr.
Qed.

Lemma trimEnd_fixed (s : string) :
  ~ JSString.endsWithWhiteSpace s -> JSString.trimEnd s = s.
Proof.
  intros H. destruct (trimEnd_split s) as [suf [Hs Hsuf]].
  destruct suf as [|c suf]; [now rewrite string_app_nil_r in Hs|].
  exfalso. apply H.
  destruct (blank_ends_with_white_space Hsuf) as [front [last [Hw Hl]]];
    [discriminate|].
  exists (JSString.trimEnd s ++ front)%string, last. split; [|exact Hl].
  now rewrite string_app_assoc, <- Hw.
Qed.

(** [s.trim()] is [s] without the white space at its two ends, and
    neither begins nor ends with white space. *)
Lemma trim_split (s : string) :
  exists pre suf,
    s = (pre ++ JSString.trim s ++ suf)%string
    /\ JSString.blank pre = true /\ JSString.blank suf = true.
Proof.
  unfold JSString.trim.
  destruct (trimStart_split s) as [pre [Hs Hpre]].
  destruct (trimEnd_split (JSString.trimStart s)) as [suf [Ht Hsuf]].
  exists pre, suf. repeat split; try assumption. now rewrite <- Ht.
Qed.

Lemma trim_not_ending (s : string) :
  ~ JSString.endsWithWhiteSpace (JSString.trim s).
Proof. apply trimEnd_not_ending. Qed.

Lemma trim_not_beginning (s : string) :
  ~ JSString.beginsWithWhiteSpace (JSString.trim s).
Proof.
  unfold JSString.beginsWithWhiteSpace, JSString.trim. intros H. apply H.
  destruct (trimEnd_split (JSString.trimStart s)) as [suf [Ht _]].
  destruct (JSString.dropWhiteSpace (JSString.trimEnd (JSString.trimStart s)))
    as [rest|] eqn:E; [|reflexivity].
  pose proof (dropWhiteSpace_app _ suf E) as H'.
  rewrite <- Ht, trimStart_not_beginning in H'. discriminate H'.
Qed.

Lemma trim_empty_iff (s : string) :
  JSString.trim s = "" <-> JSString.blank s = true.
Proof.
  unfold JSString.trim. split.
  - intros H. destruct (trimEnd_split (JSString.trimStart s))
      as [suf [Ht Hsuf]].
    rewrite H in Ht. simpl in Ht. subst suf.
    apply blank_iff in Hsuf.
    rewrite (trimStart_fixed _ (trimStart_not_beginning s)) in Hsuf.
    now apply blank_iff.
  - intros H. apply blank_iff in H. now rewrite H.
Qed.

Lemma trim_idempotent (s : string) :
  JSString.trim (JSString.trim s) = JSString.trim s.
Proof.
  unfold JSString.trim at 1.
  rewrite trimStart_fixed.
  - apply trimEnd_fixed, trim_not_ending.
  - destruct (JSString.dropWhiteSpace (JSString.trim s)) eqn:E;
      [|reflexivity].
    exfalso. apply (trim_not_beginning s).
    unfold JSString.beginsWithWhiteSpace. congruence.
Qed.

End Trimming.

(** ** The editor *)

Lemma saveDetail_title_nonempty (e : NoteEditor.State) :
  NoteEditor.s_title (NoteEditor.saveDetail e) <> "".
Proof.
  simpl. unfold JS.or_else.
  destruct (JSString.trim (NoteEditor.title e)); simpl; discriminate.
Qed.

(** X1.  The title that the editor's save dispatches is never empty and
    neither begins nor ends with a white-space character: it is the typed
    title without the white space around it, or "Untitled Note" when the
    typed title is blank.  The content is dispatched as typed. *)
Theorem editor_save_title_is_clean (e : NoteEditor.State) :
  let d := NoteEditor.saveDetail e in
  NoteEditor.s_content d = NoteEditor.content e
  /\ NoteEditor.s_title d <> ""
  /\ ~ JSString.beginsWithWhiteSpace (NoteEditor.s_title d)
  /\ ~ JSString.endsWithWhiteSpace (NoteEditor.s_title d)
  /\ (if JSString.blank (NoteEditor.title e)
      then NoteEditor.s_title d = "Untitled Note"
      else exists pre suf,
          NoteEditor.title e = (pre ++ NoteEditor.s_title d ++ suf)%string
          /\ JSString.blank pre = true /\ JSString.blank suf = true).
Proof.
  simpl. unfold JS.or_else.
  destruct (trim_split (NoteEditor.title e)) as [pre [suf [Hs [Hp Hq]]]].
  pose proof (trim_not_beginning (NoteEditor.title e)) as Hb.
  pose proof (trim_not_ending (NoteEditor.title e)) as He.
  destruct (JSString.blank (NoteEditor.title e)) eqn:Eb.
  - apply trim_empty_iff in Eb. rewrite Eb. simpl.
    split; [reflexivity|]. split; [discriminate|]. split; [|split].
    + intros H. apply H. reflexivity.
    + change "Untitled Note" with (JSString.trimEnd "Untitled Note").
      apply trimEnd_not_ending.
    + reflexivity.
  - destruct (JSString.trim (NoteEditor.title e)) as [|c r] eqn:Et.
    + apply trim_empty_iff in Et. congruence.
    + simpl. split; [reflexivity|]. split; [discriminate|].
      split; [exact Hb|]. split; [exact He|].
      exists pre, suf. now repeat split.
Qed.

(** X2.  Saving what a save produced changes nothing: the dispatched title
    and content, put back into the editor and saved again, are dispatched
    unchanged. *)
Theorem editor_save_is_idempotent (e : NoteEditor.State) :
  let d := NoteEditor.saveDetail e in
  NoteEditor.saveDetail
    (NoteEditor.typeContent (NoteEditor.s_content d)
       (NoteEditor.typeTitle (NoteEditor.s_title d) e))
  = d.
Proof.
  simpl. unfold NoteEditor.saveDetail; simpl. f_equal.
  unfold JS.or_else.
  destruct (JSString.trim (NoteEditor.title e)) as [|c r] eqn:Et.
  - reflexivity.
  - simpl. rewrite <- Et, trim_idempotent, Et. reflexivity.
Qed.

(** ** The selection along a run of the page *)

Section SelectionFacts.

Variable T : Type.

Lemma filter_ids_incl (f : Common.Note T -> bool) (l : list (Common.Note T))
  (x : string) :
  In x (map (@Common.id T) (filter f l)) -> In x (map (@Common.id T) l).
Proof.
  rewrite !in_map_iff. intros [n [Hx Hin]]. apply filter_In in Hin.
  exists n. tauto.
Qed.

Lemma canDispatch_in (l : list (Common.Note T)) (x : string) :
  existsb (fun note => (Common.id note =? x)%string) l = true ->
  In x (map (@Common.id T) l).
Proof.
  intros H. apply existsb_exists in H. destruct H as [n [Hin Hx]].
  apply String.eqb_eq in Hx. apply in_map_iff. now exists n.
Qed.

Lemma visible_ids_incl (t x : string) (l : list (Common.Note T)) :
  In x (map (@Common.id T)
          (if JS.truthy t then filter (Common.matchesSearch t) l else l)) ->
  In x (map (@Common.id T) l).
Proof.
  destruct (JS.truthy t); [apply filter_ids_incl | trivial].
Qed.

Lemma findSelected_none_iff (l : list (Common.Note T))
  (sel : option string) :
  Common.findSelected l sel = None
  <-> match sel with
      | None => True
      | Some x => ~ In x (map (@Common.id T) l)
      end.
Proof.
  unfold Common.findSelected. destruct sel as [x|]; simpl.
  - induction l as [|n l IH]; simpl; [tauto|].
    destruct (x =? Common.id n)%string eqn:E.
    + apply String.eqb_eq in E. split; [discriminate | intros H].
      exfalso. apply H. left. now symmetry.
    + apply String.eqb_neq in E. rewrite IH. split.
      * intros H [Heq | Hin]; [now apply E | now apply H].
      * intros H Hin. apply H. now right.
  - split; [trivial | intros _]. induction l; simpl; trivial.
Qed.

Lemma firstId_valid (l : list (Common.Note T)) :
  Inv.selectionValid l (Common.firstId l).
Proof. destruct l; simpl; [trivial | now left]. Qed.

Lemma delete_keeps_selection_valid (id0 : string)
  (l : list (Common.Note T)) (sel : option string) :
  Inv.selectionValid l sel ->
  Inv.selectionValid (Common.removeId id0 l)
    (if JS.strict_eq_opt sel id0
     then Common.firstId (Common.removeId id0 l) else sel).
Proof.
  intros H. destruct (JS.strict_eq_opt sel id0) eqn:E;
    [apply firstId_valid|].
  destruct sel as [x|]; simpl in *; [|trivial].
  apply String.eqb_neq in E. apply in_map_iff in H.
  destruct H as [n [Hx Hin]]. apply in_map_iff. exists n.
  split; [assumption|]. apply removeId_keeps_others. split; congruence.
Qed.

Lemma update_keeps_ids (id0 : string) (g : Common.Note T -> Common.Note T)
  (l : list (Common.Note T)) :
  (forall n, In n l -> Common.id n = id0 -> Common.id (g n) = Common.id n) ->
  map (@Common.id T)
    (map (fun n => if (Common.id n =? id0)%string then g n else n) l)
  = map (@Common.id T) l.
Proof.
  intros Hg. rewrite map_map. apply map_ext_in. intros n Hin.
  destruct (Common.id n =? id0)%string eqn:E; [|reflexivity].
  apply Hg; [assumption | now apply String.eqb_eq].
Qed.

Lemma selectionValid_ids (l l' : list (Common.Note T))
  (sel : option string) :
  map (@Common.id T) l' = map (@Common.id T) l ->
  Inv.selectionValid l sel -> Inv.selectionValid l' sel.
Proof. unfold Inv.selectionValid. intros ->. trivial. Qed.

End SelectionFacts.

Lemma local_act_selection_valid (w w' : LocalApp.World)
  (a : LocalApp.Action) (o : LocalApp.SetItem) :
  LocalApp.act w a o = Some w' ->
  Inv.selectionValid (LocalStorage.notes (LocalApp.app w))
    (LocalStorage.selectedNoteId (LocalApp.app w)) ->
  Inv.selectionValid (LocalStorage.notes (LocalApp.app w'))
    (LocalStorage.selectedNoteId (LocalApp.app w')).
Proof.
  destruct w as [st sto].
  destruct a as [now | term | id | id confirmed | | editor clock |
                 | confirmed]; simpl; intros Hact Hinv.
  - injection Hact as <-. simpl. now left.
  - injection Hact as <-. exact Hinv.
  - destruct (existsb _ _) eqn:E; [|discriminate].
    injection Hact as <-. simpl.
    apply canDispatch_in in E. now apply visible_ids_incl in E.
  - destruct (existsb _ _); [|discriminate]. injection Hact as <-.
    destruct confirmed; simpl; [|exact Hinv].
    now apply delete_keeps_selection_valid.
  - destruct (LocalStorage.selectedNote st); [|discriminate].
    injection Hact as <-. exact Hinv.
  - destruct (LocalStorage.selectedNote st) as [n|]; [|discriminate].
    destruct o; injection Hact as <-; simpl;
      (apply selectionValid_ids with (l := LocalStorage.notes st);
       [|exact Hinv]);
      apply updateEach_keeps_ids; reflexivity.
  - destruct (LocalStorage.selectedNote st); [|discriminate].
    injection Hact as <-. exact Hinv.
  - destruct (LocalStorage.selectedNote st) as [n|]; [|discriminate].
    injection Hact as <-.
    destruct confirmed; simpl; [|exact Hinv].
    now apply delete_keeps_selection_valid.
Qed.

(** X3.  Local variant: whatever the stored notes, whatever the user does
    on the page after mount and whether the writes to the storage return or
    throw, the selected id is null or the id of a note in the list; hence
    the editor pane is absent exactly when no id is selected. *)
Theorem local_selection_always_valid
  (stored : option (list LocalStorage.Note))
  (steps : list (LocalApp.Action * LocalApp.SetItem))
  (w : LocalApp.World)
  (Hrun : LocalApp.run (LocalApp.mount stored) steps = Some w) :
  Inv.selectionValid (LocalStorage.notes (LocalApp.app w))
    (LocalStorage.selectedNoteId (LocalApp.app w))
  /\ (LocalStorage.selectedNote (LocalApp.app w) = None
      <-> LocalStorage.selectedNoteId (LocalApp.app w) = None).
Proof.
  assert (Hinv : Inv.selectionValid (LocalStorage.notes (LocalApp.app w))
                   (LocalStorage.selectedNoteId (LocalApp.app w))).
  { assert (H0 : Inv.selectionValid
                   (LocalStorage.notes (LocalApp.app (LocalApp.mount stored)))
                   (LocalStorage.selectedNoteId
                      (LocalApp.app (LocalApp.mount stored))))
      by exact I.
    revert Hrun H0. generalize (LocalApp.mount stored) as w0.
    induction steps as [|step steps IH]; simpl; intros w0 Hrun H0.
    - injection Hrun as <-. exact H0.
    - destruct (LocalApp.act w0 (fst step) (snd step)) as [w1|] eqn:Ea;
        [|discriminate].
      apply (IH w1 Hrun).
      exact (@local_act_selection_valid _ _ _ _ Ea H0). }
  split; [exact Hinv|].
  unfold LocalStorage.selectedNote.
  pose proof (findSelected_none_iff (LocalStorage.notes (LocalApp.app w))
                (LocalStorage.selectedNoteId (LocalApp.app w))) as Hf.
  destruct (LocalStorage.selectedNoteId (LocalApp.app w)) as [x|];
    simpl in *.
  - split; [intros H; apply Hf in H; contradiction | discriminate].
  - split; [reflexivity | intros _; now apply Hf].
Qed.

Lemma adapter_mount_selection_valid
  (reply : Supabase.Settled (list Supabase.Note)) :
  Inv.selectionValid (Supabase.notes (SupabaseApp.mount reply))
    (Supabase.selectedNoteId (SupabaseApp.mount reply)).
Proof.
  destruct reply as [data|e]; simpl; [|trivial].
  destruct data as [|n data]; simpl; [trivial | now left].
Qed.

Lemma adapter_act_selection_valid (st st' : Supabase.State)
  (a : SupabaseApp.Action) :
  SupabaseApp.act st a = Some st' ->
  match a, Supabase.selectedNote st with
  | SupabaseApp.editorSave _ (Supabase.Resolved confirmed), Some selected =>
      Common.id confirmed = Common.id selected
  | _, _ => True
  end ->
  Inv.selectionValid (Supabase.notes st) (Supabase.selectedNoteId st) ->
  Inv.selectionValid (Supabase.notes st') (Supabase.selectedNoteId st').
Proof.
  destruct a as [now reply | term | id | id confirmed reply | | editor reply
                 | | confirmed reply]; simpl; intros Hact Hkeep Hinv.
  - injection Hact as <-. destruct reply; simpl; [now left | exact Hinv].
  - injection Hact as <-. exact Hinv.
  - destruct (existsb _ _) eqn:E; [|discriminate].
    injection Hact as <-. simpl.
    apply canDispatch_in in E. now apply visible_ids_incl in E.
  - destruct (existsb _ _); [|discriminate]. injection Hact as <-.
    destruct confirmed; simpl; [|exact Hinv].
    destruct reply; simpl; [|exact Hinv].
    now apply delete_keeps_selection_valid.
  - destruct (Supabase.selectedNote st); [|discriminate].
    injection Hact as <-. exact Hinv.
  - destruct (Supabase.selectedNote st) as [n|]; [|discriminate].
    injection Hact as <-. destruct reply as [confirmed|e]; simpl;
      [|exact Hinv].
    apply selectionValid_ids with (l := Supabase.notes st); [|exact Hinv].
    apply update_keeps_ids. intros m _ Hm. simpl. congruence.
  - destruct (Supabase.selectedNote st); [|discriminate].
    injection Hact as <-. exact Hinv.
  - destruct (Supabase.selectedNote st) as [n|]; [|discriminate].
    injection Hact as <-.
    destruct confirmed; simpl; [|exact Hinv].
    destruct reply; simpl; [|exact Hinv].
    now apply delete_keeps_selection_valid.
Qed.

(** X4.  Adapter-backed variant: after mount and any run of the page in
    which the adapter answers each update with a note of the id asked for,
    whether its calls resolve or are rejected, the selected id is null or
    the id of a note in the list. *)
Theorem adapter_selection_always_valid
  (loaded : Supabase.Settled (list Supabase.Note))
  (actions : list SupabaseApp.Action) (st : Supabase.State)
  (Hkeep : SupabaseApp.updatesKeepId (SupabaseApp.mount loaded) actions)
  (Hrun : SupabaseApp.run (SupabaseApp.mount loaded) actions = Some st) :
  Inv.selectionValid (Supabase.notes st) (Supabase.selectedNoteId st).
Proof.
  pose proof (adapter_mount_selection_valid loaded) as H0.
  revert Hkeep Hrun H0. generalize (SupabaseApp.mount loaded) as st0.
  induction actions as [|a actions IH]; simpl; intros st0 Hkeep Hrun H0.
  - injection Hrun as <-. exact H0.
  - destruct Hkeep as [Ha Hrest].
    destruct (SupabaseApp.act st0 a) as [st1|] eqn:Ea; [|discriminate].
    apply (IH st1 Hrest Hrun).
    exact (adapter_act_selection_valid _ _ Ea Ha H0).
Qed.

(** ** Persistence of the local variant *)

Lemma reloaded_unfold (w : LocalApp.World) :
  LocalApp.reloaded w = match LocalApp.storage w with
                        | Some parsed => parsed
                        | None => []
                        end.
Proof. reflexivity. Qed.

Lemma local_act_in_sync (w w' : LocalApp.World) (a : LocalApp.Action)
  (o before : LocalApp.SetItem) :
  LocalApp.act w a o = Some w' ->
  (before = LocalApp.setItemReturns ->
   LocalApp.reloaded w = LocalStorage.notes (LocalApp.app w)) ->
  (if LocalApp.writes a then o else before) = LocalApp.setItemReturns ->
  LocalApp.reloaded w' = LocalStorage.notes (LocalApp.app w').
Proof.
  rewrite !reloaded_unfold. destruct w as [st sto].
  destruct a as [now | term | id | id confirmed | | editor clock |
                 | confirmed]; simpl; intros Hact Hinv Hlast.
  - injection Hact as <-. subst o. reflexivity.
  - injection Hact as <-. exact (Hinv Hlast).
  - destruct (existsb _ _); [|discriminate]. injection Hact as <-.
    exact (Hinv Hlast).
  - destruct (existsb _ _); [|discriminate]. injection Hact as <-.
    destruct confirmed; simpl; [subst o; reflexivity | exact (Hinv Hlast)].
  - destruct (LocalStorage.selectedNote st); [|discriminate].
    injection Hact as <-. exact (Hinv Hlast).
  - destruct (LocalStorage.selectedNote st); [|discriminate].
    subst o. injection Hact as <-. reflexivity.
  - destruct (LocalStorage.selectedNote st); [|discriminate].
    injection Hact as <-. exact (Hinv Hlast).
  - destruct (LocalStorage.selectedNote st); [|discriminate].
    injection Hact as <-.
    destruct confirmed; simpl; [subst o; reflexivity | exact (Hinv Hlast)].
Qed.

(** X5.  Local variant: whatever was stored and whatever the user does on
    the page after mount, a reload would load exactly the list now in
    memory, provided the last write to the storage of the run, if there was
    one, returned: every handler that changes the list writes the whole
    list, so a write that returns makes up for the writes that threw before
    it. *)
Theorem local_reload_round_trip
  (stored : option (list LocalStorage.Note))
  (steps : list (LocalApp.Action * LocalApp.SetItem))
  (w : LocalApp.World)
  (Hrun : LocalApp.run (LocalApp.mount stored) steps = Some w)
  (Hlast : LocalApp.lastWrite LocalApp.setItemReturns steps
           = LocalApp.setItemReturns) :
  LocalApp.reloaded w = LocalStorage.notes (LocalApp.app w).
Proof.
  assert (H0 : LocalApp.setItemReturns = LocalApp.setItemReturns ->
               LocalApp.reloaded (LocalApp.mount stored)
               = LocalStorage.notes (LocalApp.app (LocalApp.mount stored)))
    by reflexivity.
  revert Hrun Hlast H0. unfold LocalApp.lastWrite.
  generalize LocalApp.setItemReturns at 1 3 as before.
  generalize (LocalApp.mount stored) as w0.
  induction steps as [|step steps IH]; simpl; intros w0 before Hrun Hlast H0.
  - injection Hrun as <-. exact (H0 Hlast).
  - destruct (LocalApp.act w0 (fst step) (snd step)) as [w1|] eqn:Ea;
      [|discriminate].
    apply (IH w1 _ Hrun Hlast).
    exact (@local_act_in_sync _ _ _ _ before Ea H0).
Qed.

(** ** Ids of the local variant *)

Lemma updateEach_ids_are_creation_times (id0 : string)
  (p : LocalStorage.PartialNote) (clock : nat -> Z)
  (l : list LocalStorage.Note) :
  Common.p_id p = None -> Common.p_created p = None ->
  Forall Inv.idIsCreationTime l ->
  forall from : nat,
    Forall Inv.idIsCreationTime (LocalStorage.updateEach id0 p clock from l).
Proof.
  intros Hi Hc Hl. induction Hl as [|m l Hm Hl IH]; intros from; simpl;
    [constructor|].
  destruct (Common.id m =? id0)%string; constructor; try apply IH.
  - unfold Inv.idIsCreationTime in *. simpl. now rewrite Hi, Hc.
  - exact Hm.
Qed.

Lemma local_act_ids_are_creation_times (w w' : LocalApp.World)
  (a : LocalApp.Action) (o : LocalApp.SetItem) :
  LocalApp.act w a o = Some w' ->
  Forall Inv.idIsCreationTime (LocalStorage.notes (LocalApp.app w)) ->
  Forall Inv.idIsCreationTime (LocalStorage.notes (LocalApp.app w')).
Proof.
  destruct w as [st sto].
  destruct a as [now | term | id | id confirmed | | editor clock |
                 | confirmed]; simpl; intros Hact Hinv.
  - injection Hact as <-. simpl. constructor; [reflexivity | exact Hinv].
  - injection Hact as <-. exact Hinv.
  - destruct (existsb _ _); [|discriminate]. injection Hact as <-.
    exact Hinv.
  - destruct (existsb _ _); [|discriminate]. injection Hact as <-.
    destruct confirmed; simpl; [|exact Hinv].
    apply Forall_forall. intros n Hn. apply removeId_keeps_others in Hn.
    rewrite Forall_forall in Hinv. now apply Hinv.
  - destruct (LocalStorage.selectedNote st); [|discriminate].
    injection Hact as <-. exact Hinv.
  - destruct (LocalStorage.selectedNote st) as [sel|]; [|discriminate].
    pose proof (updateEach_ids_are_creation_times (Common.id sel)
                  (NoteEditor.asPartial Z (NoteEditor.saveDetail editor))
                  clock eq_refl eq_refl Hinv 0) as Hu.
    destruct o; injection Hact as <-; exact Hu.
  - destruct (LocalStorage.selectedNote st); [|discriminate].
    injection Hact as <-. exact Hinv.
  - destruct (LocalStorage.selectedNote st) as [sel|]; [|discriminate].
    injection Hact as <-.
    destruct confirmed; simpl; [|exact Hinv].
    apply Forall_forall. intros n Hn. apply removeId_keeps_others in Hn.
    rewrite Forall_forall in Hinv. now apply Hinv.
Qed.

Lemma NoDup_map_injective_on (A B C : Type) (f : A -> B) (g : A -> C)
  (h : C -> B) (l : list A) :
  (forall x y, h x = h y -> x = y) ->
  (forall a, In a l -> f a = h (g a)) ->
  (NoDup (map f l) <-> NoDup (map g l)).
Proof.
  intros Hinj. induction l as [|a l IH]; simpl; intros Hf.
  - split; constructor.
  - assert (Hl : forall b, In b l -> f b = h (g b))
      by (intros b Hb; apply Hf; now right).
    assert (Hin : In (f a) (map f l) <-> In (g a) (map g l)).
    { rewrite !in_map_iff. split; intros [b [Hb Hbl]]; exists b;
        (split; [|assumption]).
      - apply Hinj. rewrite <- (Hl b Hbl), <- (Hf a (or_introl eq_refl)).
        exact Hb.
      - rewrite (Hl b Hbl), (Hf a (or_introl eq_refl)). now f_equal. }
    split; intros H; inversion H as [|? ? Hx Hrest]; subst; constructor.
    + now rewrite <- Hin.
    + now apply IH.
    + now rewrite Hin.
    + now apply IH.
Qed.

(** X6.  Local variant: when every stored note has the decimal numeral of
    its creation time as id (as the notes this component creates do), so
    does every note of the list after any run of the page; the ids are then
    pairwise distinct exactly when the creation times are. *)
Theorem local_ids_are_creation_times
  (stored : option (list LocalStorage.Note))
  (steps : list (LocalApp.Action * LocalApp.SetItem))
  (w : LocalApp.World)
  (Hstored : Forall Inv.idIsCreationTime
               (LocalStorage.notes (LocalApp.app (LocalApp.mount stored))))
  (Hrun : LocalApp.run (LocalApp.mount stored) steps = Some w) :
  Forall Inv.idIsCreationTime (LocalStorage.notes (LocalApp.app w))
  /\ (Spec.distinctIds (LocalStorage.notes (LocalApp.app w))
      <-> NoDup (map (@Common.created Z)
                   (LocalStorage.notes (LocalApp.app w)))).
Proof.
  assert (Hinv : Forall Inv.idIsCreationTime
                   (LocalStorage.notes (LocalApp.app w))).
  { revert Hrun Hstored. generalize (LocalApp.mount stored) as w0.
    induction steps as [|step steps IH]; simpl; intros w0 Hrun H0.
    - injection Hrun as <-. exact H0.
    - destruct (LocalApp.act w0 (fst step) (snd step)) as [w1|] eqn:Ea;
        [|discriminate].
      apply (IH w1 Hrun).
      exact (@local_act_ids_are_creation_times _ _ _ _ Ea H0). }
  split; [exact Hinv|].
  unfold Spec.distinctIds.
  apply NoDup_map_injective_on with (h := JS.String_of_number).
  - apply String_of_number_inj.
  - intros n Hn. rewrite Forall_forall in Hinv. exact (Hinv n Hn).
Qed.

(** ** The sidebar *)

Section Sidebar.

Variable T : Type.

Lemma no_item_active (x : string) (l : list (Common.Note T)) :
  ~ In x (map (@Common.id T) l) ->
  filter NoteList.active (map (NoteList.item (Some x)) l) = [].
Proof.
  induction l as [|n l IH]; simpl; [reflexivity|]. intros H.
  destruct (x =? Common.id n)%string eqn:E.
  - apply String.eqb_eq in E. exfalso. apply H. left. now symmetry.
  - apply IH. intros Hin. apply H. now right.
Qed.

Lemma one_item_active (x : string) (l : list (Common.Note T)) :
  NoDup (map (@Common.id T) l) ->
  In x (map (@Common.id T) l) ->
  map NoteList.key
    (filter NoteList.active (map (NoteList.item (Some x)) l))
  = [x].
Proof.
  induction l as [|n l IH]; simpl; [contradiction|]. intros Hnd Hin.
  inversion Hnd as [|? ? Hn Hl]; subst.
  destruct (x =? Common.id n)%string eqn:E.
  - apply String.eqb_eq in E. subst x. simpl.
    rewrite no_item_active by exact Hn. reflexivity.
  - apply String.eqb_neq in E. destruct Hin as [Heq | Hin];
      [congruence | now apply IH].
Qed.

Lemma highlighted_cases (l : list (Common.Note T)) (sel : option string) :
  NoDup (map (@Common.id T) l) ->
  NoteList.highlighted (NoteList.render l sel)
  = match sel with
    | Some x =>
        if existsb (fun note => (Common.id note =? x)%string) l
        then [x] else []
    | None => []
    end.
Proof.
  intros Hnd. destruct l as [|n l]; [now destruct sel|].
  unfold NoteList.render, NoteList.highlighted.
  destruct sel as [x|].
  - destruct (existsb _ (n :: l)) eqn:E.
    + apply one_item_active; [assumption | now apply canDispatch_in].
    + rewrite no_item_active; [reflexivity|].
      intros Hin. apply in_map_iff in Hin. destruct Hin as [m [Hm Hin]].
      assert (Ht : existsb (fun note => (Common.id note =? x)%string)
                     (n :: l) = true).
      { apply existsb_exists. exists m. split; [assumption|].
        now apply String.eqb_eq. }
      congruence.
  - clear Hnd. induction (n :: l) as [|m r IH]; simpl; [reflexivity|].
    exact IH.
Qed.

Lemma filter_keeps_distinct (f : Common.Note T -> bool)
  (l : list (Common.Note T)) :
  Spec.distinctIds l -> Spec.distinctIds (filter f l).
Proof.
  unfold Spec.distinctIds.
  induction l as [|n l IH]; simpl; intros H; [constructor|].
  inversion H as [|? ? Hn Hl]; subst. destruct (f n); simpl.
  - constructor; [|now apply IH].
    intros Hin. apply Hn. now apply filter_ids_incl in Hin.
  - now apply IH.
Qed.

End Sidebar.

(** X7.  When the ids of the list are pairwise distinct, the sidebar, which
    shows the visible notes, highlights no item, or exactly one: the item
    of the selected id, when that note is among the visible ones (both
    variants). *)
Theorem sidebar_highlights_selected_only
  (sa : Supabase.State) (sl : LocalStorage.State)
  (Ha : Spec.distinctIds (Supabase.notes sa))
  (Hl : Spec.distinctIds (LocalStorage.notes sl)) :
  NoteList.highlighted
    (NoteList.render (Supabase.filteredNotes sa)
       (Supabase.selectedNoteId sa))
  = match Supabase.selectedNoteId sa with
    | Some x =>
        if NoteList.canDispatch (Supabase.filteredNotes sa)
             (NoteList.select x)
        then [x] else []
    | None => []
    end
  /\ NoteList.highlighted
       (NoteList.render (LocalStorage.filteredNotes sl)
          (LocalStorage.selectedNoteId sl))
     = match LocalStorage.selectedNoteId sl with
       | Some x =>
           if NoteList.canDispatch (LocalStorage.filteredNotes sl)
                (NoteList.select x)
           then [x] else []
       | None => []
       end.
Proof.
  split; apply highlighted_cases.
  - unfold Supabase.filteredNotes, Supabase.filteredNotesWith.
    destruct (JS.truthy (Supabase.searchTerm sa));
      [now apply filter_keeps_distinct | exact Ha].
  - unfold LocalStorage.filteredNotes, LocalStorage.filteredNotesWith.
    destruct (JS.truthy (LocalStorage.searchTerm sl));
      [now apply filter_keeps_distinct | exact Hl].
Qed.

(** ** Ids that the list does not hold *)

Section AbsentId.

Variable T : Type.

Lemma removeId_absent_id (id0 : string) (l : list (Common.Note T)) :
  ~ In id0 (map (@Common.id T) l) -> Common.removeId id0 l = l.
Proof.
  unfold Common.removeId.
  induction l as [|n l IH]; simpl; intros H; [reflexivity|].
  destruct (Common.id n =? id0)%string eqn:E; simpl.
  - apply String.eqb_eq in E. exfalso. apply H. now left.
  - f_equal. apply IH. intros Hin. apply H. now right.
Qed.

Lemma update_absent_id (id0 : string) (g : Common.Note T -> Common.Note T)
  (l : list (Common.Note T)) :
  ~ In id0 (map (@Common.id T) l) ->
  map (fun n => if (Common.id n =? id0)%string then g n else n) l = l.
Proof.
  induction l as [|n l IH]; simpl; intros H; [reflexivity|].
  destruct (Common.id n =? id0)%string eqn:E.
  - apply String.eqb_eq in E. exfalso. apply H. now left.
  - f_equal. apply IH. intros Hin. apply H. now right.
Qed.

Lemma valid_selection_is_not_absent (id0 : string)
  (l : list (Common.Note T)) (sel : option string) :
  ~ In id0 (map (@Common.id T) l) -> Inv.selectionValid l sel ->
  JS.strict_eq_opt sel id0 = false.
Proof.
  intros Habs Hsel. destruct sel as [x|]; simpl in *; [|reflexivity].
  apply String.eqb_neq. congruence.
Qed.

End AbsentId.

(** X8.  Deleting or updating an id that no note of the list has leaves the
    list as it is, in both variants, also when the delete is confirmed and
    the adapter call resolves; when the selection is valid, the confirmed
    delete leaves the selected id as it is too.  The backend is written all
    the same. *)
Theorem absent_id_changes_nothing
  (id : string) (sa : Supabase.State) (sl : LocalStorage.State)
  (pa : Supabase.PartialNote) (confirmed : Supabase.Note)
  (pl : LocalStorage.PartialNote) (clock : nat -> Z)
  (Ha : ~ In id (map (@Common.id string) (Supabase.notes sa)))
  (Hl : ~ In id (map (@Common.id Z) (LocalStorage.notes sl))) :
  (let d := Supabase.deleteNote true id (Supabase.Resolved tt) sa in
   let u := Supabase.updateNote id pa (Supabase.Resolved confirmed) sa in
   Supabase.notes (fst d) = Supabase.notes sa
   /\ (Inv.selectionValid (Supabase.notes sa)
         (Supabase.selectedNoteId sa) ->
       Supabase.selectedNoteId (fst d) = Supabase.selectedNoteId sa)
   /\ snd d = [Supabase.supabaseDeleteNote id]
   /\ Supabase.notes (fst u) = Supabase.notes sa
   /\ snd u = [Supabase.supabaseUpdateNote id pa])
  /\ (let d := LocalStorage.deleteNote true id sl in
      let u := LocalStorage.updateNote id pl clock sl in
      LocalStorage.notes (fst d) = LocalStorage.notes sl
      /\ (Inv.selectionValid (LocalStorage.notes sl)
            (LocalStorage.selectedNoteId sl) ->
          fst d = sl)
      /\ snd d = [LocalStorage.setItem "notes" (LocalStorage.notes sl)]
      /\ fst u = sl
      /\ snd u = [LocalStorage.setItem "notes" (LocalStorage.notes sl)]).
Proof.
  split; simpl.
  - rewrite (@removeId_absent_id _ _ _ Ha), (@update_absent_id _ _ _ _ Ha).
    repeat split. intros Hsa.
    now rewrite (@valid_selection_is_not_absent _ _ _ _ Ha Hsa).
  - unfold LocalStorage.saveNotes; simpl.
    rewrite (@removeId_absent_id _ _ _ Hl).
    rewrite (@updateEach_absent_id id pl clock _ Hl 0).
    repeat split; try (destruct sl; reflexivity).
    intros Hsl. rewrite (@valid_selection_is_not_absent _ _ _ _ Hl Hsl).
    destruct sl; reflexivity.
Qed.

(** ** Creating, then deleting *)

(** X9.  Creating a note whose id is new to the list and then deleting it
    (confirmed) gives back the list as it was before, in both variants; the
    selected id is then the id of the first note of that list, or null, and
    not the id selected before the create, and editing stays true. *)
Theorem create_then_delete_restores_list
  (now : string) (confirmed : Supabase.Note) (sa : Supabase.State)
  (nowl : Z) (sl : LocalStorage.State)
  (Ha : ~ In (Common.id confirmed)
          (map (@Common.id string) (Supabase.notes sa)))
  (Hl : ~ In (JS.String_of_number nowl)
          (map (@Common.id Z) (LocalStorage.notes sl))) :
  (let created :=
     fst (Supabase.createNote now (Supabase.Resolved confirmed) sa) in
   let deleted :=
     fst (Supabase.deleteNote true (Common.id confirmed)
            (Supabase.Resolved tt) created) in
   Supabase.notes deleted = Supabase.notes sa
   /\ Supabase.selectedNoteId deleted
      = Spec.firstIdOrNull (Supabase.notes sa)
   /\ Supabase.editing deleted = true)
  /\ (let created := fst (LocalStorage.createNote nowl sl) in
      let deleted :=
        fst (LocalStorage.deleteNote true (JS.String_of_number nowl)
               created) in
      LocalStorage.notes deleted = LocalStorage.notes sl
      /\ LocalStorage.selectedNoteId deleted
         = Spec.firstIdOrNull (LocalStorage.notes sl)
      /\ LocalStorage.editing deleted = true).
Proof.
  pose proof (@removeId_absent_id _ _ _ Ha) as Ea.
  pose proof (@removeId_absent_id _ _ _ Hl) as El.
  split; simpl; rewrite String.eqb_refl; simpl.
  - rewrite Ea. repeat split. apply firstId_is_firstIdOrNull.
  - rewrite El. repeat split. apply firstId_is_firstIdOrNull.
Qed.

(** ** Newest first *)

Lemma local_creates_prepend (nows : list Z) :
  forall st : LocalStorage.State,
    map (@Common.created Z)
      (LocalStorage.notes
         (fold_left LocalStorage.perform (map LocalStorage.Create nows) st))
    = rev nows ++ map (@Common.created Z) (LocalStorage.notes st)
    /\ map (@Common.id Z)
         (LocalStorage.notes
            (fold_left LocalStorage.perform (map LocalStorage.Create nows)
               st))
       = rev (map JS.String_of_number nows)
           ++ map (@Common.id Z) (LocalStorage.notes st).
Proof.
  induction nows as [|now nows IH]; intros st; simpl; [split; reflexivity|].
  destruct (IH (fst (LocalStorage.createNote now st))) as [Hc Hi].
  simpl in Hc, Hi. rewrite Hc, Hi, <- !app_assoc. split; reflexivity.
Qed.

Lemma adapter_creates_prepend (replies : list (string * Supabase.Note)) :
  forall st : Supabase.State,
    Supabase.notes
      (fold_left Supabase.perform
         (map (fun r => Supabase.Create (fst r) (Supabase.Resolved (snd r)))
            replies) st)
    = rev (map snd replies) ++ Supabase.notes st.
Proof.
  induction replies as [|r replies IH]; intros st; simpl; [reflexivity|].
  rewrite IH. simpl. now rewrite <- app_assoc.
Qed.

(** X10.  Creates alone, from the empty store, leave the notes newest
    first: the list holds the created notes in the reverse of the order of
    creation (the local notes with the clock readings as creation times and
    their numerals as ids, the adapter-backed ones as the adapter confirmed
    them), and the last note created is the selected one. *)
Theorem creates_are_listed_newest_first
  (nows : list Z) (replies : list (string * Supabase.Note)) :
  (let st := LocalStorage.session (map LocalStorage.Create nows) in
   map (@Common.created Z) (LocalStorage.notes st) = rev nows
   /\ map (@Common.id Z) (LocalStorage.notes st)
      = rev (map JS.String_of_number nows)
   /\ LocalStorage.selectedNoteId st
      = Spec.firstIdOrNull (LocalStorage.notes st))
  /\ (let st :=
        Supabase.session
          (map (fun r => Supabase.Create (fst r)
                           (Supabase.Resolved (snd r))) replies) in
      Supabase.notes st = rev (map snd replies)
      /\ Supabase.selectedNoteId st
         = Spec.firstIdOrNull (Supabase.notes st)).
Proof.
  split.
  - unfold LocalStorage.session.
    destruct (local_creates_prepend nows LocalStorage.initial) as [Hc Hi].
    simpl in Hc, Hi. rewrite app_nil_r in Hc, Hi.
    split; [exact Hc | split; [exact Hi|]].
    clear Hc Hi.
    assert (H : forall st,
               LocalStorage.selectedNoteId st
               = Spec.firstIdOrNull (LocalStorage.notes st) ->
               LocalStorage.selectedNoteId
                 (fold_left LocalStorage.perform
                    (map LocalStorage.Create nows) st)
               = Spec.firstIdOrNull
                   (LocalStorage.notes
                      (fold_left LocalStorage.perform
                         (map LocalStorage.Create nows) st))).
    { induction nows as [|now nows IH]; intros st Hst; simpl;
        [exact Hst|]. apply IH. reflexivity. }
    apply (H LocalStorage.initial). reflexivity.
  - unfold Supabase.session. split.
    + rewrite adapter_creates_prepend. simpl. apply app_nil_r.
    + assert (H : forall st,
                 Supabase.selectedNoteId st
                 = Spec.firstIdOrNull (Supabase.notes st) ->
                 Supabase.selectedNoteId
                   (fold_left Supabase.perform
                      (map (fun r => Supabase.Create (fst r)
                                       (Supabase.Resolved (snd r)))
                         replies) st)
                 = Spec.firstIdOrNull
                     (Supabase.notes
                        (fold_left Supabase.perform
                           (map (fun r => Supabase.Create (fst r)
                                            (Supabase.Resolved (snd r)))
                              replies) st))).
      { induction replies as [|r replies IH]; intros st Hst; simpl;
          [exact Hst|]. apply IH. reflexivity. }
      apply H. reflexivity.
Qed.

(** ** Searching *)

Lemma includes_trans (a b c : string) :
  JS.includes a b = true -> JS.includes b c = true ->
  JS.includes a c = true.
Proof.
  rewrite !includes_iff. intros [p [s ->]] [p' [s' ->]].
  exists (p ++ p')%string, (s' ++ s)%string.
  now rewrite !string_app_assoc.
Qed.

Lemma matchesSearch_narrower (T : Type) (toLowerCase : string -> string)
  (pre t suf : string) (n : Common.Note T) :
  toLowerCase (pre ++ t ++ suf)%string
  = (toLowerCase pre ++ toLowerCase t ++ toLowerCase suf)%string ->
  Common.matchesSearchWith toLowerCase (pre ++ t ++ suf)%string n = true ->
  Common.matchesSearchWith toLowerCase t n = true.
Proof.
  intros Hterm. unfold Common.matchesSearchWith. rewrite !orb_true_iff.
  assert (H : JS.includes (toLowerCase (pre ++ t ++ suf)%string)
                (toLowerCase t) = true).
  { apply includes_iff. rewrite Hterm.
    now exists (toLowerCase pre), (toLowerCase suf). }
  intros [H1 | H1]; [left | right]; exact (includes_trans _ _ _ H1 H).
Qed.

Lemma visible_narrower (T : Type) (toLowerCase : string -> string)
  (pre t suf : string) (l : list (Common.Note T)) (n : Common.Note T) :
  toLowerCase (pre ++ t ++ suf)%string
  = (toLowerCase pre ++ toLowerCase t ++ toLowerCase suf)%string ->
  In n (if JS.truthy (pre ++ t ++ suf)%string
        then filter (Common.matchesSearchWith toLowerCase (pre ++ t ++ suf)%string)
               l
        else l) ->
  In n (if JS.truthy t
        then filter (Common.matchesSearchWith toLowerCase t) l else l).
Proof.
  intros Hterm. destruct (JS.truthy (pre ++ t ++ suf)%string) eqn:E.
  - intros H. apply filter_In in H. destruct H as [Hin Hm].
    destruct (JS.truthy t); [|assumption].
    apply filter_In. split; [assumption|].
    exact (matchesSearch_narrower _ _ _ _ _ Hterm Hm).
  - apply truthy_false_iff in E.
    destruct pre; [|discriminate]. destruct t; [trivial | discriminate].
Qed.

(** X11.  Extending the search term, in front or behind, only narrows the
    sidebar, as long as lower-casing the longer term lower-cases its three
    parts (as it does for ASCII terms): a note that is visible under the
    longer term is then visible under the shorter one, and is a note of the
    list (both variants, whatever [String.prototype.toLowerCase] does
    elsewhere). *)
Theorem longer_search_term_shows_fewer_notes
  (toLowerCase : string -> string)
  (sa : Supabase.State) (sl : LocalStorage.State) (pre t suf : string)
  (Hterm : toLowerCase (pre ++ t ++ suf)%string
           = (toLowerCase pre ++ toLowerCase t ++ toLowerCase suf)%string) :
  (forall n,
      In n (Supabase.filteredNotesWith toLowerCase
              (Supabase.setSearchTerm (pre ++ t ++ suf) sa)) ->
      In n (Supabase.filteredNotesWith toLowerCase
              (Supabase.setSearchTerm t sa))
      /\ In n (Supabase.notes sa))
  /\ (forall n,
         In n (LocalStorage.filteredNotesWith toLowerCase
                 (LocalStorage.setSearchTerm (pre ++ t ++ suf) sl)) ->
         In n (LocalStorage.filteredNotesWith toLowerCase
                 (LocalStorage.setSearchTerm t sl))
         /\ In n (LocalStorage.notes sl)).
Proof.
  split; intros n H.
  - unfold Supabase.filteredNotesWith in *; simpl in *. split.
    + exact (visible_narrower _ _ _ _ _ _ Hterm H).
    + destruct (JS.truthy (pre ++ t ++ suf)%string); [|assumption].
      apply filter_In in H. tauto.
  - unfold LocalStorage.filteredNotesWith in *; simpl in *. split.
    + exact (visible_narrower _ _ _ _ _ _ Hterm H).
    + destruct (JS.truthy (pre ++ t ++ suf)%string); [|assumption].
      apply filter_In in H. tauto.
Qed.

(** ** Failures of the adapter *)

Ltac settle_outcome :=
  simpl;
  try tauto;
  try (repeat split; try discriminate; reflexivity).

Lemma adapter_act_outcome (st st' : Supabase.State)
  (a : SupabaseApp.Action) :
  SupabaseApp.act st a = Some st' ->
  match SupabaseApp.settlement a with
  | Some None => Supabase.error st' = None
  | Some (Some e) =>
      Supabase.error st' <> None
      /\ Supabase.notes st' = Supabase.notes st
      /\ Supabase.selectedNoteId st' = Supabase.selectedNoteId st
      /\ Supabase.searchTerm st' = Supabase.searchTerm st
  | None =>
      Supabase.error st' = Supabase.error st
      /\ Supabase.notes st' = Supabase.notes st
  end.
Proof.
  destruct a as [now reply | term | id | id confirmed reply | | editor reply
                 | | confirmed reply]; simpl; intros Hact.
  - injection Hact as <-.
    destruct reply as [r|[m|]]; settle_outcome.
  - injection Hact as <-. settle_outcome.
  - destruct (existsb _ _); [|discriminate]. injection Hact as <-.
    settle_outcome.
  - destruct (existsb _ _); [|discriminate]. injection Hact as <-.
    destruct confirmed; [|settle_outcome].
    destruct reply as [r|[m|]]; settle_outcome.
  - destruct (Supabase.selectedNote st); [|discriminate].
    injection Hact as <-. settle_outcome.
  - destruct (Supabase.selectedNote st) as [sel|]; [|discriminate].
    injection Hact as <-.
    destruct reply as [r|[m|]]; settle_outcome.
  - destruct (Supabase.selectedNote st); [|discriminate].
    injection Hact as <-. settle_outcome.
  - destruct (Supabase.selectedNote st) as [sel|]; [|discriminate].
    injection Hact as <-.
    destruct confirmed; [|settle_outcome].
    destruct reply as [r|[m|]]; settle_outcome.
Qed.

Lemma adapter_act_not_loading (st st' : Supabase.State)
  (a : SupabaseApp.Action) :
  SupabaseApp.act st a = Some st' ->
  Supabase.loading st = false -> Supabase.loading st' = false.
Proof.
  destruct a as [now reply | term | id | id confirmed reply | | editor reply
                 | | confirmed reply]; simpl; intros Hact Hl.
  - injection Hact as <-. now destruct reply.
  - injection Hact as <-. exact Hl.
  - destruct (existsb _ _); [|discriminate]. injection Hact as <-.
    exact Hl.
  - destruct (existsb _ _); [|discriminate]. injection Hact as <-.
    destruct confirmed; [now destruct reply | exact Hl].
  - destruct (Supabase.selectedNote st); [|discriminate].
    injection Hact as <-. exact Hl.
  - destruct (Supabase.selectedNote st) as [sel|]; [|discriminate].
    injection Hact as <-. now destruct reply.
  - destruct (Supabase.selectedNote st); [|discriminate].
    injection Hact as <-. exact Hl.
  - destruct (Supabase.selectedNote st) as [sel|]; [|discriminate].
    injection Hact as <-.
    destruct confirmed; [now destruct reply | exact Hl].
Qed.

(** X12.  Adapter-backed variant: an action whose adapter call is rejected
    leaves the list, the selected id and the search term as they were and
    sets the error message; an action whose call resolves clears it; an
    action that makes no adapter call (a declined delete among them) keeps
    both the list and the error message. *)
Theorem adapter_rejection_keeps_list
  (st st' : Supabase.State) (a : SupabaseApp.Action)
  (Hact : SupabaseApp.act st a = Some st') :
  (forall e,
      SupabaseApp.settlement a = Some (Some e) ->
      Supabase.error st' <> None
      /\ Supabase.notes st' = Supabase.notes st
      /\ Supabase.selectedNoteId st' = Supabase.selectedNoteId st
      /\ Supabase.searchTerm st' = Supabase.searchTerm st)
  /\ (SupabaseApp.settlement a = Some None -> Supabase.error st' = None)
  /\ (SupabaseApp.settlement a = None ->
      Supabase.error st' = Supabase.error st
      /\ Supabase.notes st' = Supabase.notes st).
Proof.
  pose proof (@adapter_act_outcome st st' a Hact) as H.
  split; [|split].
  - intros e He. rewrite He in H. exact H.
  - intros He. rewrite He in H. exact H.
  - intros He. rewrite He in H. exact H.
Qed.

(** X13.  Adapter-backed variant: after mount and any run of the page, no
    call is in flight ([loading] is false) and the error message is set
    exactly when the last adapter call made so far, the load at mount
    included, was rejected. *)
Theorem adapter_error_reflects_last_call
  (loaded : Supabase.Settled (list Supabase.Note))
  (actions : list SupabaseApp.Action) (st : Supabase.State)
  (Hrun : SupabaseApp.run (SupabaseApp.mount loaded) actions = Some st) :
  Supabase.loading st = false
  /\ (Supabase.error st = None
      <-> SupabaseApp.lastRejection (SupabaseApp.outcome loaded) actions
          = None).
Proof.
  assert (H0 : Supabase.loading (SupabaseApp.mount loaded) = false
               /\ (Supabase.error (SupabaseApp.mount loaded) = None
                   <-> SupabaseApp.outcome loaded = None)).
  { destruct loaded as [data|[m|]]; simpl; [tauto| |];
      (split; [reflexivity | split; discriminate]). }
  revert Hrun H0. generalize (SupabaseApp.outcome loaded) as before.
  generalize (SupabaseApp.mount loaded) as st0.
  unfold SupabaseApp.lastRejection.
  induction actions as [|a actions IH]; simpl; intros st0 before Hrun H0.
  - injection Hrun as <-. exact H0.
  - destruct (SupabaseApp.act st0 a) as [st1|] eqn:Ea; [|discriminate].
    apply (IH st1 _ Hrun).
    destruct H0 as [Hl He].
    pose proof (@adapter_act_outcome _ _ _ Ea) as H1.
    split; [exact (@adapter_act_not_loading _ _ _ Ea Hl)|].
    destruct (SupabaseApp.settlement a) as [[e|]|].
    + destruct H1 as [H1 _]. split; [contradiction | discriminate].
    + tauto.
    + destruct H1 as [H1 _]. rewrite H1. exact He.
Qed.

(** ** Looking up the selected note *)

Section Lookup.

Variable T : Type.

Lemma findSelected_first (l : list (Common.Note T)) (sel : option string)
  (n : Common.Note T) :
  Common.findSelected l sel = Some n ->
  sel = Some (Common.id n)
  /\ exists before after,
      l = before ++ n :: after
      /\ ~ In (Common.id n) (map (@Common.id T) before).
Proof.
  unfold Common.findSelected. destruct sel as [x|]; simpl.
  - induction l as [|m l IH]; simpl; [discriminate|].
    destruct (x =? Common.id m)%string eqn:E.
    + intros [= <-]. apply String.eqb_eq in E. subst x.
      split; [reflexivity|]. exists [], l. split; [reflexivity | tauto].
    + intros H. destruct (IH H) as [Hx [before [after [-> Hb]]]].
      split; [assumption|]. exists (m :: before), after.
      split; [reflexivity|]. simpl. intros [Hm | Hin]; [|tauto].
      apply String.eqb_neq in E. congruence.
  - intros H. exfalso. induction l; simpl in H; [discriminate | tauto].
Qed.

End Lookup.

(** X14.  The selected note, in both variants: it is null exactly when the
    selected id is null or the id of no note of the list; otherwise it is
    the first note of the list with the selected id. *)
Theorem selectedNote_is_first_with_selected_id
  (sa : Supabase.State) (sl : LocalStorage.State) :
  ((Supabase.selectedNote sa = None
    <-> match Supabase.selectedNoteId sa with
        | None => True
        | Some x => ~ In x (map (@Common.id string) (Supabase.notes sa))
        end)
   /\ forall n,
       Supabase.selectedNote sa = Some n ->
       Supabase.selectedNoteId sa = Some (Common.id n)
       /\ exists before after,
           Supabase.notes sa = before ++ n :: after
           /\ ~ In (Common.id n) (map (@Common.id string) before))
  /\ ((LocalStorage.selectedNote sl = None
       <-> match LocalStorage.selectedNoteId sl with
           | None => True
           | Some x => ~ In x (map (@Common.id Z) (LocalStorage.notes sl))
           end)
      /\ forall n,
          LocalStorage.selectedNote sl = Some n ->
          LocalStorage.selectedNoteId sl = Some (Common.id n)
          /\ exists before after,
              LocalStorage.notes sl = before ++ n :: after
              /\ ~ In (Common.id n) (map (@Common.id Z) before)).
Proof.
  split; (split; [apply findSelected_none_iff|]);
    intros n H; exact (@findSelected_first _ _ _ _ H).
Qed.

(** ** Saving from the editor *)

Lemma findSelected_after_updateEach (x : string)
  (p : LocalStorage.PartialNote) (clock : nat -> Z)
  (before after : list LocalStorage.Note) (n : LocalStorage.Note) :
  Common.id n = x -> Common.p_id p = None ->
  ~ In x (map (@Common.id Z) before) ->
  forall from : nat,
    Common.findSelected
      (LocalStorage.updateEach x p clock from (before ++ n :: after))
      (Some x)
    = Some (LocalStorage.merged n p (clock from)).
Proof.
  intros Hn Hp. unfold Common.findSelected.
  induction before as [|m before IH]; simpl; intros Hb from.
  - rewrite Hn, String.eqb_refl. simpl. rewrite Hp. simpl.
    now rewrite Hn, String.eqb_refl.
  - destruct (Common.id m =? x)%string eqn:E.
    + apply String.eqb_eq in E. tauto.
    + simpl. rewrite String.eqb_sym, E. apply IH. tauto.
Qed.

(** X15.  Local variant: a click on save in the editor, whatever was typed,
    leaves the selected note selected and makes it the note it was with the
    cleaned title, the typed content and the first clock reading of the
    call as [updated]; its id and creation time, the selected id and the
    search term are unchanged.  When the write to the storage returns,
    editing is off and the stored list is the new list; when it throws,
    editing is as it was and so is the stored value. *)
Theorem local_save_updates_selected_note
  (w w' : LocalApp.World) (editor : NoteEditor.State) (clock : nat -> Z)
  (o : LocalApp.SetItem)
  (Hact : LocalApp.act w (LocalApp.editorSave editor clock) o = Some w') :
  exists old new,
    LocalStorage.selectedNote (LocalApp.app w) = Some old
    /\ LocalStorage.selectedNote (LocalApp.app w') = Some new
    /\ Common.id new = Common.id old
    /\ Common.created new = Common.created old
    /\ Common.title new
       = NoteEditor.s_title (NoteEditor.saveDetail editor)
    /\ Common.title new <> ""
    /\ Common.content new = NoteEditor.content editor
    /\ Common.updated new = clock 0
    /\ LocalStorage.selectedNoteId (LocalApp.app w')
       = LocalStorage.selectedNoteId (LocalApp.app w)
    /\ LocalStorage.searchTerm (LocalApp.app w')
       = LocalStorage.searchTerm (LocalApp.app w)
    /\ match o with
       | LocalApp.setItemReturns =>
           LocalStorage.editing (LocalApp.app w') = false
           /\ LocalApp.storage w'
              = Some (LocalStorage.notes (LocalApp.app w'))
       | LocalApp.setItemThrows =>
           LocalStorage.editing (LocalApp.app w')
           = LocalStorage.editing (LocalApp.app w)
           /\ LocalApp.storage w' = LocalApp.storage w
       end.
Proof.
  destruct w as [st sto]. simpl in Hact.
  destruct (LocalStorage.selectedNote st) as [old|] eqn:Esel;
    [|discriminate].
  unfold LocalStorage.selectedNote in *.
  destruct (findSelected_first _ _ Esel) as [Hsel [before [after [Hl Hb]]]].
  pose proof (@findSelected_after_updateEach (Common.id old)
                (NoteEditor.asPartial Z (NoteEditor.saveDetail editor))
                clock before after old eq_refl eq_refl Hb 0) as Hfind.
  exists old,
    (LocalStorage.merged old
       (NoteEditor.asPartial Z (NoteEditor.saveDetail editor)) (clock 0)).
  split; [exact Esel|].
  destruct o; injection Hact as <-; simpl; rewrite Hsel;
    (split; [rewrite Hl; exact Hfind|]); repeat split;
    exact (saveDetail_title_nonempty editor).
Qed.

(** ** What removes a note *)

(** X16.  Local variant: only a confirmed delete removes notes, whether the
    write to the storage returns or throws.  After any other action of the
    page the ids of the list are the ids it had, in
    the same order, with the id of the new note in front after a create; a
    confirmed delete removes the notes of one id and adds none. *)
Theorem local_only_confirmed_delete_removes
  (w w' : LocalApp.World) (a : LocalApp.Action) (o : LocalApp.SetItem)
  (Hact : LocalApp.act w a o = Some w') :
  let before := LocalStorage.notes (LocalApp.app w) in
  let after := LocalStorage.notes (LocalApp.app w') in
  match a with
  | LocalApp.listDelete id true =>
      forall n, In n after <-> In n before /\ Common.id n <> id
  | LocalApp.editorDelete true =>
      exists selected,
        LocalStorage.selectedNote (LocalApp.app w) = Some selected
        /\ forall n, In n after
                     <-> In n before /\ Common.id n <> Common.id selected
  | LocalApp.clickCreate now =>
      map (@Common.id Z) after
      = JS.String_of_number now :: map (@Common.id Z) before
  | _ => map (@Common.id Z) after = map (@Common.id Z) before
  end.
Proof.
  destruct w as [st sto].
  destruct a as [now | term | id | id confirmed | | editor clock |
                 | confirmed]; simpl in *.
  - injection Hact as <-. reflexivity.
  - injection Hact as <-. reflexivity.
  - destruct (existsb _ _); [|discriminate]. injection Hact as <-.
    reflexivity.
  - destruct (existsb _ _); [|discriminate]. injection Hact as <-.
    destruct confirmed; simpl; [|reflexivity].
    intros n. apply removeId_keeps_others.
  - destruct (LocalStorage.selectedNote st); [|discriminate].
    injection Hact as <-. reflexivity.
  - destruct (LocalStorage.selectedNote st) as [sel|]; [|discriminate].
    destruct o; injection Hact as <-; simpl;
      apply updateEach_keeps_ids; reflexivity.
  - destruct (LocalStorage.selectedNote st); [|discriminate].
    injection Hact as <-. reflexivity.
  - destruct (LocalStorage.selectedNote st) as [sel|]; [|discriminate].
    injection Hact as <-.
    destruct confirmed; simpl; [|reflexivity].
    exists sel. split; [reflexivity|].
    intros n. apply removeId_keeps_others.
Qed.

(** ** Loading over a selection *)

Lemma normalized_keeps_ids (data : list Supabase.Note) :
  map (@Common.id string) (map Supabase.normalized data)
  = map (@Common.id string) data.
Proof. rewrite map_map. apply map_ext. reflexivity. Qed.

(** X17.  Adapter-backed variant: a load that resolves never replaces a
    selected id that is a non-empty string, also when no returned note has
    that id, in which case no note is selected for display; a selected id
    that is the empty string counts as no selection and is replaced by the
    id of the first returned note. *)
Theorem adapter_load_keeps_selected_id
  (data : list Supabase.Note) (st : Supabase.State) (x : string)
  (Hsel : Supabase.selectedNoteId st = Some x) :
  let st' := fst (Supabase.loadNotes (Supabase.Resolved data) st) in
  (x <> "" ->
   Supabase.selectedNoteId st' = Some x
   /\ (Supabase.selectedNote st' = None
       <-> ~ In x (map (@Common.id string) data)))
  /\ (x = "" ->
      Supabase.selectedNoteId st'
      = match data with
        | [] => Some ""
        | first :: _ => Some (Common.id first)
        end).
Proof.
  intros st'. split.
  - intros Hx.
    assert (Ht : JS.truthy x = true)
      by (destruct x; [contradiction | reflexivity]).
    assert (Hs : Supabase.selectedNoteId st' = Some x).
    { subst st'. simpl. rewrite Hsel.
      destruct data; simpl; [reflexivity | now rewrite Ht]. }
    split; [exact Hs|].
    unfold Supabase.selectedNote. rewrite Hs.
    pose proof (findSelected_none_iff (Supabase.notes st') (Some x)) as Hf.
    subst st'. simpl in Hf. rewrite normalized_keeps_ids in Hf. exact Hf.
  - intros ->. subst st'. simpl. rewrite Hsel. destruct data; reflexivity.
Qed.

(** ** The further properties at the sample runs *)

(** A title typed with no-break spaces (U+00A0) around it, and one made of
    them only. *)
Example editor_cleans_no_break_spaces :
  NoteEditor.s_title
    (NoteEditor.saveDetail
       (NoteEditor.typeTitle
          (String "194" (String "160" ("Hi" ++ String "194" (String "160" ""))))
          Scenario.typedEditor))
  = "Hi"
  /\ NoteEditor.s_title
       (NoteEditor.saveDetail
          (NoteEditor.typeTitle
             (String "194" (String "160" (String "194" (String "160" ""))))
             Scenario.typedEditor))
     = "Untitled Note".
Proof. split; reflexivity. Qed.

Example lower_casing_of_sigma :
  JSCase.toLowerCase "Σ" = "σ"
  /\ JSCase.toLowerCase "AΣ" = "aς"
  /\ JSCase.toLowerCase "AΣB" = "aσb"
  /\ JSCase.toLowerCase "A.Σ B" = "a.ς b"
  /\ JSCase.toLowerCase "ΣA" = "σa"
  /\ JSCase.toLowerCase "Hello World" = JS.toLowerCase "Hello World".
Proof. repeat split. Qed.

(** A line separator (U+2028), a byte-order mark (U+FEFF) and a tab in
    front, an ideographic space (U+3000) and a line feed behind; white space
    inside the text stays. *)
Example trim_removes_unicode_white_space :
  JSString.trim
    (String "226" (String "128" (String "168"
       (String "239" (String "187" (String "191"
          (String "009" ("to do"
             ++ String "227" (String "128" (String "128"
                  (String "010" "")))))))))))
  = "to do".
Proof. reflexivity. Qed.

Example editor_cleans_typed_title :
  NoteEditor.saveDetail Scenario.typedEditor
  = {| NoteEditor.s_title := "Shopping list";
       NoteEditor.s_content := "milk" |}
  /\ NoteEditor.s_title
       (NoteEditor.saveDetail
          (NoteEditor.typeTitle "   " Scenario.typedEditor))
     = "Untitled Note".
Proof. split; reflexivity. Qed.

Lemma local_selection_always_valid_witness :
  exists w,
    LocalApp.run (LocalApp.mount Scenario.localStored) Scenario.localVisit
    = Some w
    /\ LocalStorage.selectedNoteId (LocalApp.app w) = Some "1710000005000"
    /\ Inv.selectionValid (LocalStorage.notes (LocalApp.app w))
         (LocalStorage.selectedNoteId (LocalApp.app w)).
Proof.
  eexists. split; [reflexivity|]. split; [reflexivity|].
  exact (proj1 (@local_selection_always_valid Scenario.localStored
                  Scenario.localVisit _ eq_refl)).
Defined.

Lemma adapter_selection_always_valid_witness :
  exists st,
    SupabaseApp.run (SupabaseApp.mount Scenario.adapterLoaded)
      Scenario.adapterVisit
    = Some st
    /\ Inv.selectionValid (Supabase.notes st) (Supabase.selectedNoteId st).
Proof.
  eexists. split; [reflexivity|].
  apply (@adapter_selection_always_valid Scenario.adapterLoaded
           Scenario.adapterVisit).
  - simpl. repeat split.
  - reflexivity.
Defined.

Lemma local_reload_round_trip_witness :
  exists w,
    LocalApp.run (LocalApp.mount Scenario.localStored) Scenario.localVisit
    = Some w
    /\ LocalApp.reloaded w = LocalStorage.notes (LocalApp.app w).
Proof.
  eexists. split; [reflexivity|].
  exact (@local_reload_round_trip Scenario.localStored Scenario.localVisit
           _ eq_refl eq_refl).
Defined.

Lemma local_ids_are_creation_times_witness :
  exists w,
    LocalApp.run (LocalApp.mount None) Scenario.firstVisit = Some w
    /\ map (@Common.id Z) (LocalStorage.notes (LocalApp.app w))
       = ["1710000002000"; "1710000000000"]
    /\ Forall Inv.idIsCreationTime (LocalStorage.notes (LocalApp.app w)).
Proof.
  eexists. split; [reflexivity|]. split; [reflexivity|].
  exact (proj1 (@local_ids_are_creation_times None Scenario.firstVisit _
                  (Forall_nil _) eq_refl)).
Defined.

Lemma sidebar_highlights_selected_only_witness :
  NoteList.highlighted
    (NoteList.render (Supabase.filteredNotes Sample.sa)
       (Supabase.selectedNoteId Sample.sa))
  = ["1"].
Proof.
  assert (Ha : Spec.distinctIds (Supabase.notes Sample.sa)).
  { unfold Spec.distinctIds. simpl. repeat constructor; simpl.
    - intros [H | []]. discriminate H.
    - intros []. }
  assert (Hl : Spec.distinctIds (LocalStorage.notes Sample.sl)).
  { unfold Spec.distinctIds. simpl. repeat constructor; simpl.
    - intros [H | []]. discriminate H.
    - intros []. }
  exact (proj1 (@sidebar_highlights_selected_only Sample.sa Sample.sl
                  Ha Hl)).
Defined.

Lemma absent_id_changes_nothing_witness :
  fst (LocalStorage.deleteNote true "9" Sample.sl) = Sample.sl
  /\ Supabase.notes
       (fst (Supabase.deleteNote true "9" (Supabase.Resolved tt) Sample.sa))
     = [Sample.a1; Sample.a2].
Proof.
  assert (Ha : ~ In "9" (map (@Common.id string)
                           (Supabase.notes Sample.sa))).
  { simpl. intros [H | [H | []]]; discriminate H. }
  assert (Hl : ~ In "9" (map (@Common.id Z)
                           (LocalStorage.notes Sample.sl))).
  { simpl. intros [H | [H | []]]; discriminate H. }
  assert (Hsl : Inv.selectionValid (LocalStorage.notes Sample.sl)
                  (LocalStorage.selectedNoteId Sample.sl))
    by (simpl; left; reflexivity).
  destruct (@absent_id_changes_nothing "9" Sample.sa Sample.sl
              (Spec.titleOnly "X") Sample.a3 (Spec.titleOnly "X")
              Scenario.saveClock Ha Hl)
    as [[Hda _] [_ [Hdl _]]].
  split; [exact (Hdl Hsl) | exact Hda].
Defined.

Lemma create_then_delete_restores_list_witness :
  LocalStorage.selectedNoteId
    (fst (LocalStorage.deleteNote true "1709622000000"
            (fst (LocalStorage.createNote 1709622000000%Z
                    (LocalStorage.selectNote "2" Sample.sl)))))
  = Some "1".
Proof.
  assert (Ha : ~ In (Common.id Sample.a3)
                 (map (@Common.id string) (Supabase.notes Sample.sa))).
  { simpl. intros [H | [H | []]]; discriminate H. }
  assert (Hl : ~ In (JS.String_of_number 1709622000000%Z)
                 (map (@Common.id Z)
                    (LocalStorage.notes
                       (LocalStorage.selectNote "2" Sample.sl)))).
  { simpl. intros [H | [H | []]]; discriminate H. }
  exact (proj1 (proj2 (proj2
           (@create_then_delete_restores_list "2024-03-05T07:00:00.000Z"
              Sample.a3 Sample.sa 1709622000000%Z
              (LocalStorage.selectNote "2" Sample.sl) Ha Hl)))).
Defined.

Lemma longer_search_term_shows_fewer_notes_witness :
  In Sample.a1
    (Supabase.filteredNotesWith JSCase.toLowerCase
       (Supabase.setSearchTerm "egg" Sample.sa)).
Proof.
  apply (proj1 (@longer_search_term_shows_fewer_notes JSCase.toLowerCase
                  Sample.sa Sample.sl "and " "egg" "s" eq_refl)).
  simpl. left. reflexivity.
Defined.

Lemma adapter_rejection_keeps_list_witness :
  exists st',
    SupabaseApp.act Sample.sa Scenario.rejectedCreate = Some st'
    /\ Supabase.error st' = Some "offline"
    /\ Supabase.notes st' = [Sample.a1; Sample.a2].
Proof.
  eexists. split; [reflexivity|]. split; [reflexivity|].
  exact (proj1 (proj2 (proj1 (@adapter_rejection_keeps_list Sample.sa _
                                Scenario.rejectedCreate eq_refl)
                         (Supabase.ErrorObject "offline") eq_refl))).
Defined.

Lemma adapter_error_reflects_last_call_witness :
  exists st,
    SupabaseApp.run (SupabaseApp.mount Scenario.adapterLoaded)
      Scenario.adapterVisit
    = Some st
    /\ Supabase.error st = Some "offline"
    /\ Supabase.loading st = false.
Proof.
  eexists. split; [reflexivity|]. split; [reflexivity|].
  exact (proj1 (@adapter_error_reflects_last_call Scenario.adapterLoaded
                  Scenario.adapterVisit _ eq_refl)).
Defined.

Lemma selectedNote_is_first_with_selected_id_witness :
  Supabase.selectedNoteId Sample.sa = Some (Common.id Sample.a1).
Proof.
  exact (proj1 (proj2 (proj1 (@selectedNote_is_first_with_selected_id
                                Sample.sa Sample.sl))
                  Sample.a1 eq_refl)).
Defined.

Lemma local_save_updates_selected_note_witness :
  exists w',
    LocalApp.act Scenario.localWorld
      (LocalApp.editorSave Scenario.typedEditor Scenario.saveClock)
      LocalApp.setItemThrows
    = Some w'
    /\ map (@Common.title Z) (LocalStorage.notes (LocalApp.app w'))
       = ["Shopping list"; "Ideas"]
    /\ LocalApp.storage w' = Scenario.localStored
    /\ exists old new,
        LocalStorage.selectedNote (LocalApp.app Scenario.localWorld)
        = Some old
        /\ LocalStorage.selectedNote (LocalApp.app w') = Some new
        /\ Common.id new = Common.id old.
Proof.
  eexists. split; [reflexivity|]. split; [reflexivity|].
  split; [reflexivity|].
  destruct (@local_save_updates_selected_note Scenario.localWorld _
              Scenario.typedEditor Scenario.saveClock
              LocalApp.setItemThrows eq_refl)
    as [old [new [H1 [H2 [H3 _]]]]].
  exists old, new. split; [exact H1 | split; [exact H2 | exact H3]].
Defined.

Lemma local_only_confirmed_delete_removes_witness :
  exists w',
    LocalApp.act Scenario.localWorld
      (LocalApp.editorSave Scenario.typedEditor Scenario.saveClock)
      LocalApp.setItemReturns
    = Some w'
    /\ map (@Common.id Z) (LocalStorage.notes (LocalApp.app w'))
       = map (@Common.id Z)
           (LocalStorage.notes (LocalApp.app Scenario.localWorld)).
Proof.
  eexists. split; [reflexivity|].
  exact (@local_only_confirmed_delete_removes Scenario.localWorld _
           (LocalApp.editorSave Scenario.typedEditor Scenario.saveClock)
           LocalApp.setItemReturns eq_refl).
Defined.

Lemma adapter_load_keeps_selected_id_witness :
  Supabase.selectedNoteId
    (fst (Supabase.loadNotes (Supabase.Resolved [Sample.a2]) Sample.sa))
  = Some "1"
  /\ Supabase.selectedNote
       (fst (Supabase.loadNotes (Supabase.Resolved [Sample.a2]) Sample.sa))
     = None.
Proof.
  assert (Hx : "1" <> "") by discriminate.
  destruct (proj1 (@adapter_load_keeps_selected_id [Sample.a2] Sample.sa
                     "1" eq_refl) Hx) as [Hs Hn].
  split; [exact Hs | reflexivity].
Defined.
